(** * Bet code converter: a shallow embedding of [main.py] and its properties

    The development follows the source file top to bottom:
    - [Text]: the [str] type, a sequence of Unicode code points;
    - [PyStr]: the [str] methods the program calls ([strip], [splitlines]);
    - [PyFloat]: [float] values (binary64) and the [float(...)] constructor;
    - [Regex]: the fragment of Python's [re] used by the five locator
      patterns and by the versus-line pattern, as a backtracking matcher;
    - [Converter]: the program itself, function by function.

    Dictionaries are finite maps. *)

From Stdlib Require Import ZArith Strings.Byte SpecFloat.
From stdpp Require Import base option list gmap.

Set Default Proof Using "Type".
#[local] Set Warnings "-clear-no-such-hyp".

(** ** Exceptions and results *)

Inductive exn : Type :=
| TypeError | AttributeError | ValueError | OverflowError | ToolError.

(** What a Python call gives back: a value, or a raised exception. *)
Inductive result (A : Type) : Type :=
| Ok (a : A)
| Raise (e : exn).
Arguments Ok {A} a.
Arguments Raise {A} e.

Definition rbind {A B} (r : result A) (k : A → result B) : result B :=
  match r with Ok a => k a | Raise e => Raise e end.

(** [try: r  except Exception: h] *)
Definition try_except {A} (r : result A) (h : A) : A :=
  match r with Ok a => a | Raise _ => h end.

(** ** Text *)

(** A [str] is a sequence of code points; a character is its code point.
    String literals are read as UTF-8. *)
Module Text.

Definition char : Type := N.

Inductive string : Type :=
| EmptyString
| String (c : char) (s : string).

Fixpoint of_list (l : list char) : string :=
  match l with
  | [] => EmptyString
  | c :: l' => String c (of_list l')
  end.

Fixpoint to_list (s : string) : list char :=
  match s with
  | EmptyString => []
  | String c s' => c :: to_list s'
  end.

(** The payload of a UTF-8 continuation byte. *)
Definition continuation (b : byte) : option N :=
  let n := Byte.to_N b in
  if ((128 <=? n) && (n <? 192))%N then Some (n - 128)%N else None.

Fixpoint utf8_decode (bs : list byte) : option (list char) :=
  match bs with
  | [] => Some []
  | b :: bs1 =>
      let n := Byte.to_N b in
      if (n <? 128)%N then cons n <$> utf8_decode bs1
      else if (n <? 192)%N then None
      else if (n <? 224)%N then
        match bs1 with
        | b1 :: bs2 =>
            c1 ← continuation b1;
            cons ((n - 192) * 64 + c1)%N <$> utf8_decode bs2
        | _ => None
        end
      else if (n <? 240)%N then
        match bs1 with
        | b1 :: b2 :: bs3 =>
            c1 ← continuation b1; c2 ← continuation b2;
            cons (((n - 224) * 64 + c1) * 64 + c2)%N <$> utf8_decode bs3
        | _ => None
        end
      else
        match bs1 with
        | b1 :: b2 :: b3 :: bs4 =>
            c1 ← continuation b1; c2 ← continuation b2; c3 ← continuation b3;
            cons ((((n - 240) * 64 + c1) * 64 + c2) * 64 + c3)%N <$> utf8_decode bs4
        | _ => None
        end
  end.

Definition byte_of (n : N) : byte := default x00 (Byte.of_N n).

Definition utf8_encode (c : char) : list byte :=
  if (c <? 128)%N then [byte_of c]
  else if (c <? 2048)%N then [byte_of (192 + c / 64); byte_of (128 + c mod 64)]
  else if (c <? 65536)%N then
    [byte_of (224 + c / 4096); byte_of (128 + (c / 64) mod 64); byte_of (128 + c mod 64)]
  else
    [byte_of (240 + c / 262144); byte_of (128 + (c / 4096) mod 64);
     byte_of (128 + (c / 64) mod 64); byte_of (128 + c mod 64)].

Definition string_of_bytes (bs : list byte) : option string := of_list <$> utf8_decode bs.
Definition bytes_of_string (s : string) : list byte := to_list s ≫= utf8_encode.
Definition char_of_bytes (bs : list byte) : option N :=
  match utf8_decode bs with
  | Some [c] => Some c
  | _ => None
  end.
Definition bytes_of_char (c : N) : list byte := utf8_encode c.

(** [a + b] *)
Fixpoint append (a b : string) : string :=
  match a with
  | EmptyString => b
  | String c a' => String c (append a' b)
  end.

(** [len(s)] *)
Fixpoint length (s : string) : nat :=
  match s with
  | EmptyString => 0
  | String _ s' => S (length s')
  end.

(** [a == b] *)
Fixpoint eqb (a b : string) : bool :=
  match a, b with
  | EmptyString, EmptyString => true
  | String c a', String d b' => (c =? d)%N && eqb a' b'
  | _, _ => false
  end.

(** [s.startswith(p)] *)
Fixpoint prefix (p s : string) : bool :=
  match p, s with
  | EmptyString, _ => true
  | String c p', String d s' => (c =? d)%N && prefix p' s'
  | _, _ => false
  end.

(** [s[n : n + m]] *)
Fixpoint substring (n m : nat) (s : string) : string :=
  match n, m, s with
  | O, O, _ => EmptyString
  | O, S m', String c s' => String c (substring 0 m' s')
  | S n', _, String _ s' => substring n' m s'
  | _, _, EmptyString => EmptyString
  end.

End Text.
Export Text (char, string, EmptyString, String).

Declare Scope str_scope.
Delimit Scope str_scope with str.
Bind Scope str_scope with string.
String Notation string Text.string_of_bytes Text.bytes_of_string : str_scope.
Declare Scope char_scope.
Delimit Scope char_scope with char.
Bind Scope char_scope with char.
String Notation N Text.char_of_bytes Text.bytes_of_char : char_scope.
Infix "+:+" := Text.append (at level 60, right associativity) : str_scope.
Open Scope str_scope.
Open Scope list_scope.

#[global] Instance string_eq_dec : EqDecision string.
Proof. solve_decision. Defined.

#[global] Instance string_inhabited : Inhabited string := populate "".

#[global] Instance string_countable : Countable string.
Proof.
  refine (inj_countable' Text.to_list Text.of_list _).
  intros s. induction s; simpl; congruence.
Defined.

(** ** Strings *)

Module PyStr.

Definition code (c : char) : N := c.

(** [chr(n)] *)
Definition chr (n : N) : char := n.

(** [str.isspace] on one character, which is also [\s] of [re] on [str]
    patterns: TAB..CR, FS..US, space, NEL, NBSP, and beyond Latin-1 the
    Ogham space mark, EN QUAD..HAIR SPACE, the line and paragraph
    separators, the narrow no-break space, the medium mathematical space
    and the ideographic space. *)
Definition isspace (c : char) : bool :=
  let n := code c in
  ((9 <=? n) && (n <=? 13) || (28 <=? n) && (n <=? 32)
   || (n =? 133) || (n =? 160) || (n =? 5760)
   || (8192 <=? n) && (n <=? 8202) || (n =? 8232) || (n =? 8233)
   || (n =? 8239) || (n =? 8287) || (n =? 12288))%N.

(** The line boundaries of [str.splitlines]: LF, VT, FF, CR, FS, GS, RS,
    NEL, and the line and paragraph separators. *)
Definition is_linebreak (c : char) : bool :=
  let n := code c in
  ((10 <=? n) && (n <=? 13) || (28 <=? n) && (n <=? 30) || (n =? 133)
   || (n =? 8232) || (n =? 8233))%N.

Definition LF : char := 10%N.
Definition CR : char := 13%N.

Fixpoint lstrip (s : string) : string :=
  match s with
  | "" => ""
  | String c s' => if isspace c then lstrip s' else s
  end.

Fixpoint rstrip (s : string) : string :=
  match s with
  | "" => ""
  | String c s' =>
      match rstrip s' with
      | "" => if isspace c then "" else String c ""
      | r => String c r
      end
  end.

(** [s.strip()] *)
Definition strip (s : string) : string := rstrip (lstrip s).

(** [s.splitlines()]: [cur] is the line being read. A CR directly followed
    by LF is one boundary; a final boundary opens no empty last line. *)
Fixpoint splitlines_from (cur s : string) : list string :=
  match s with
  | "" => match cur with "" => [] | _ => [cur] end
  | String c s' =>
      if is_linebreak c then
        cur :: match s' with
               | String c' s'' =>
                   if (c =? CR)%N && (c' =? LF)%N
                   then splitlines_from "" s''
                   else splitlines_from "" s'
               | "" => splitlines_from "" s'
               end
      else splitlines_from (cur +:+ String c "") s'
  end.

Definition splitlines (s : string) : list string := splitlines_from "" s.

(** Truth value of a [str]. *)
Definition truthy (s : string) : bool :=
  match s with "" => false | _ => true end.

(** [all(p(c) for c in s)] *)
Fixpoint all (p : char → bool) (s : string) : bool :=
  match s with
  | "" => true
  | String c s' => p c && all p s'
  end.

End PyStr.

(** ** Floating-point numbers *)

(** A Python [float] is an IEEE 754 binary64 number: precision 53, maximal
    exponent 1024. The constructor [float(...)] rounds to nearest, ties to
    even. *)
Module PyFloat.

Definition prec : Z := 53.
Definition emax : Z := 1024.

Definition float : Type := spec_float.

(** Truth value of a [float]: both zeros are false, NaN is true. *)
Definition truthy (f : float) : bool :=
  match f with S754_zero _ => false | _ => true end.

(** [float(n)] for an [int]: an integer too large for a binary64 raises. *)
Definition of_int (n : Z) : result float :=
  match binary_normalize prec emax n 0 false with
  | S754_infinity _ => Raise OverflowError
  | f => Ok f
  end.

(** The correctly rounded binary64 nearest to [(-1)^neg * m * 10^e]. *)
Definition of_decimal (neg : bool) (m e : Z) : float :=
  match m with
  | Zpos p =>
      match e with
      | Zneg q => SFdiv prec emax (S754_finite neg p 0)
                                  (S754_finite false (10 ^ q) 0)
      | _ => binary_normalize prec emax (cond_Zopp neg (m * 10 ^ e)) 0 neg
      end
  | _ => S754_zero neg
  end.

(** The exact value of a finite float, as numerator and denominator. *)
Definition to_ratio (f : float) : option (Z * Z) :=
  match f with
  | S754_zero _ => Some (0, 1)%Z
  | S754_finite s m e =>
      Some (match e with
            | Zneg q => (cond_Zopp s (Zpos m), Zpos (2 ^ q))
            | _ => (cond_Zopp s (Zpos m * 2 ^ e), 1)
            end)%Z
  | _ => None
  end.

(** *** [float(s)] for a [str] *)

(** The ASCII digits. *)
Definition digit_val (c : char) : option Z :=
  let n := PyStr.code c in
  if ((48 <=? n) && (n <=? 57))%N then Some (Z.of_N n - 48)%Z else None.

Definition is_digit (c : char) : bool := bool_decide (is_Some (digit_val c)).

(** The decimal digits of Unicode come in sets of ten, zero to nine in a
    row: the code points of the zeros (Unicode 14.0, the database of
    Python 3.11). *)
Definition decimal_zeros : list N := [
  48; 1632; 1776; 1984; 2406; 2534; 2662; 2790; 2918; 3046; 3174; 3302;
  3430; 3558; 3664; 3792; 3872; 4160; 4240; 6112; 6160; 6470; 6608; 6784;
  6800; 6992; 7088; 7232; 7248; 42528; 43216; 43264; 43472; 43504; 43600;
  44016; 65296; 66720; 68912; 69734; 69872; 69942; 70096; 70384; 70736;
  70864; 71248; 71360; 71472; 71904; 72016; 72784; 73040; 73120; 92768;
  92864; 93008; 120782; 120792; 120802; 120812; 120822; 123200; 123632;
  125264; 130032
]%N.

(** The value of a decimal digit of any script, which [float] reads as the
    ASCII digit of that value, and which [\d] matches. *)
Definition decimal_val (c : char) : option Z :=
  let n := PyStr.code c in
  (λ z, Z.of_N (n - z)) <$> List.find (λ z, (z <=? n) && (n <? z + 10))%N decimal_zeros.

Definition is_decimal (c : char) : bool := bool_decide (is_Some (decimal_val c)).

(** Underscores may only stand between two digits; they are removed before
    the number is read. [prev] is the character before the current one. *)
Fixpoint drop_underscores (prev : option char) (s : string) : option string :=
  match s with
  | "" => match prev with
          | Some "_"%char => None
          | _ => Some ""
          end
  | String c s' =>
      if (c =? "_"%char)%N then
        match prev with
        | Some p => if is_decimal p then drop_underscores (Some c) s' else None
        | None => None
        end
      else
        match prev with
        | Some "_"%char => if is_decimal c then String c <$> drop_underscores (Some c) s' else None
        | _ => String c <$> drop_underscores (Some c) s'
        end
  end.

(** The blanks [float] skips on both sides of the number: the ASCII ones
    TAB..CR and space, and every space that is not ASCII. *)
Definition is_blank (c : char) : bool :=
  let n := PyStr.code c in
  ((9 <=? n) && (n <=? 13) || (n =? 32) || (127 <=? n) && PyStr.isspace c)%N.

Fixpoint skip_blanks (s : string) : string :=
  match s with
  | String c s' => if is_blank c then skip_blanks s' else s
  | "" => ""
  end.

(** Reads a run of digits: the number [10^k * acc + digits], the count [k]
    of digits read, and the rest. *)
Fixpoint read_digits (acc cnt : Z) (s : string) : Z * Z * string :=
  match s with
  | String c s' =>
      match decimal_val c with
      | Some d => read_digits (10 * acc + d) (cnt + 1) s'
      | None => (acc, cnt, s)
      end
  | "" => (acc, cnt, "")
  end.

Definition read_sign (s : string) : bool * string :=
  match s with
  | String "-" s' => (true, s')
  | String "+" s' => (false, s')
  | _ => (false, s)
  end.

(** The lower-case form of an ASCII letter. *)
Definition lower (c : char) : char :=
  let n := PyStr.code c in
  if ((65 <=? n) && (n <=? 90))%N then PyStr.chr (n + 32) else c.

Fixpoint lower_str (s : string) : string :=
  match s with
  | "" => ""
  | String c s' => String (lower c) (lower_str s')
  end.

(** [inf], [infinity] and [nan], in any letter case. *)
Definition read_inf_nan (neg : bool) (s : string) : option (float * string) :=
  let l := lower_str s in
  if Text.prefix "infinity" l then Some (S754_infinity neg, Text.substring 8 (Text.length s) s)
  else if Text.prefix "inf" l then Some (S754_infinity neg, Text.substring 3 (Text.length s) s)
  else if Text.prefix "nan" l then Some (S754_nan, Text.substring 3 (Text.length s) s)
  else None.

(** The exponent part [e], [E] with an optional sign and at least one
    digit; anything else is no exponent and is left unread. *)
Definition read_exponent (s : string) : Z * string :=
  match s with
  | String c s' =>
      if (lower c =? "e"%char)%N then
        let '(eneg, s1) := read_sign s' in
        let '(ev, n, s2) := read_digits 0 0 s1 in
        if (n =? 0)%Z then (0%Z, s) else (cond_Zopp eneg ev, s2)
      else (0%Z, s)
  | "" => (0%Z, "")
  end.

(** A decimal number [digits[.digits]] or [.digits], then the exponent. *)
Definition read_decimal (neg : bool) (s : string) : option (float * string) :=
  let '(ip, n1, s1) := read_digits 0 0 s in
  let '(m, n2, s2) :=
    match s1 with
    | String "." s1' => read_digits ip 0 s1'
    | _ => (ip, 0%Z, s1)
    end in
  if (n1 + n2 =? 0)%Z then None
  else
    let '(ex, s3) := read_exponent s2 in
    Some (of_decimal neg m (ex - n2), s3).

Definition read_float (s : string) : option (float * string) :=
  let '(neg, s1) := read_sign s in
  match read_inf_nan neg s1 with
  | Some r => Some r
  | None => read_decimal neg s1
  end.

(** [float(s)]: the whole string, blanks apart, must be one number. *)
Definition of_str (s : string) : result float :=
  match drop_underscores None s with
  | None => Raise ValueError
  | Some s0 =>
      match read_float (skip_blanks s0) with
      | Some (f, rest) =>
          match skip_blanks rest with
          | "" => Ok f
          | _ => Raise ValueError
          end
      | None => Raise ValueError
      end
  end.

End PyFloat.

(** ** Regular expressions *)

(** The part of [re] that the program's patterns use: character classes,
    sequence, alternation, the greedy option, greedy and lazy repetition of a
    class, and numbered groups. Matching is by backtracking: [run] lists the
    ways a pattern matches at the start of the input, the one Python prefers
    first. *)
Module Regex.

Record flags : Type := Flags { IGNORECASE : bool; DOTALL : bool }.

Inductive cclass : Type :=
| CAny              (* .  *)
| CSpace            (* \s *)
| CDigit            (* \d *)
| CLit (c : char).  (* a literal character; those of the program are ASCII *)

Inductive regex : Type :=
| RChar (c : cclass)
| RSeq (r1 r2 : regex)
| RAlt (r1 r2 : regex)                (* r1|r2 *)
| ROpt (r : regex)                    (* r?    *)
| RPlus (greedy : bool) (c : cclass)  (* c+ and c+? *)
| RStar (greedy : bool) (c : cclass)  (* c* and c*? *)
| RGroup (n : nat) (r : regex).       (* the n-th capturing group *)

(** The characters beyond ASCII that a lower-case ASCII letter matches
    when case is ignored: the dotted capital I and the dotless i for [i],
    the Kelvin sign for [k], the long s for [s]. *)
Definition ignorecase_extra (lo : char) : list char :=
  if (lo =? "i"%char)%N then [304; 305]%N
  else if (lo =? "k"%char)%N then [8490]%N
  else if (lo =? "s"%char)%N then [383]%N
  else [].

(** A literal of a pattern against a character of the text. With
    [IGNORECASE] an ASCII literal matches the characters of the same
    lower-case form, and the ones above. *)
Definition literal_match (ignorecase : bool) (l ch : char) : bool :=
  if ignorecase && (PyStr.code l <? 128)%N then
    (PyFloat.lower ch =? PyFloat.lower l)%N
    || bool_decide (ch ∈ ignorecase_extra (PyFloat.lower l))
  else (ch =? l)%N.

Definition class_match (fl : flags) (c : cclass) (ch : char) : bool :=
  match c with
  | CAny => DOTALL fl || negb (ch =? PyStr.LF)%N
  | CSpace => PyStr.isspace ch
  | CDigit => PyFloat.is_decimal ch
  | CLit l => literal_match (IGNORECASE fl) l ch
  end.

(** The captured groups, the last one closed first. *)
Definition captures : Type := list (nat * string).

(** What is left of the input after 1, 2, ... characters of the class. *)
Fixpoint runs (fl : flags) (c : cclass) (s : string) : list string :=
  match s with
  | "" => []
  | String ch s' => if class_match fl c ch then s' :: runs fl c s' else []
  end.

(** The part of [s] read when [rest] is what remains of it. *)
Definition consumed (s rest : string) : string :=
  Text.substring 0 (Text.length s - Text.length rest) s.

Fixpoint run (fl : flags) (r : regex) (caps : captures) (s : string)
  : list (captures * string) :=
  match r with
  | RChar c =>
      match s with
      | String ch s' => if class_match fl c ch then [(caps, s')] else []
      | "" => []
      end
  | RSeq r1 r2 =>
      m ← run fl r1 caps s; run fl r2 m.1 m.2
  | RAlt r1 r2 => run fl r1 caps s ++ run fl r2 caps s
  | ROpt r1 => run fl r1 caps s ++ [(caps, s)]
  | RPlus greedy c =>
      let l := runs fl c s in
      pair caps <$> (if greedy then reverse l else l)
  | RStar greedy c =>
      let l := runs fl c s in
      pair caps <$> (if greedy then reverse l ++ [s] else s :: l)
  | RGroup n r1 =>
      (λ m, ((n, consumed s m.2) :: m.1, m.2)) <$> run fl r1 caps s
  end.

(** [re.search(r, s, flags)]: the preferred match at the leftmost position
    where the pattern matches at all. *)
Fixpoint search (fl : flags) (r : regex) (s : string) : option captures :=
  match run fl r [] s with
  | m :: _ => Some m.1
  | [] =>
      match s with
      | "" => None
      | String _ s' => search fl r s'
      end
  end.

(** [re.fullmatch(r, s, flags)], by its truth value: some way of matching
    reads the whole input. *)
Definition fullmatch (fl : flags) (r : regex) (s : string) : bool :=
  existsb (λ m, negb (PyStr.truthy m.2)) (run fl r [] s).

(** [m.group(n)] for a group that took part in the match. *)
Fixpoint group (m : captures) (n : nat) : string :=
  match m with
  | [] => ""
  | (k, w) :: m' => if decide (k = n) then w else group m' n
  end.

(** A literal word, character by character. *)
Fixpoint lit (w : string) : regex → regex :=
  match w with
  | "" => λ k, k
  | String c w' => λ k, RSeq (RChar (CLit c)) (lit w' k)
  end.

End Regex.

(** ** The program *)

Module Converter.

(** *** Values *)

(** The values that reach the program: what [json.loads] builds, and the
    dictionaries the program builds itself. *)
#[warnings="-register-all"]
Inductive value : Type :=
| VNone
| VBool (b : bool)
| VInt (n : Z)
| VFloat (f : PyFloat.float)
| VStr (s : string)
| VList (l : list value)
| VDict (d : gmap string value).

Abbreviation dict := (gmap string value).

(** Truth value, as in [if v:] and [v or w]. *)
Definition truthy (v : value) : bool :=
  match v with
  | VNone => false
  | VBool b => b
  | VInt n => negb (n =? 0)%Z
  | VFloat f => PyFloat.truthy f
  | VStr s => PyStr.truthy s
  | VList l => match l with [] => false | _ => true end
  | VDict d => negb (bool_decide (d = ∅))
  end.

(** [a or b] *)
Definition py_or (a b : value) : value := if truthy a then a else b.

(** [d.get(k)] and [d.get(k, dflt)] *)
Definition get (k : string) (d : dict) : value := default VNone (d !! k).
Definition get_default (k : string) (dflt : value) (d : dict) : value :=
  default dflt (d !! k).

(** Lists and dictionaries cannot be hashed. *)
Definition hashable (v : value) : bool :=
  match v with
  | VList _ | VDict _ => false
  | _ => true
  end.

(** [float(v)] *)
Definition py_float (v : value) : result PyFloat.float :=
  match v with
  | VFloat f => Ok f
  | VInt n => PyFloat.of_int n
  | VBool b => PyFloat.of_int (if b then 1 else 0)
  | VStr s => PyFloat.of_str s
  | VNone | VList _ | VDict _ => Raise TypeError
  end.

(** *** Models and small helpers *)

Inductive platform : Type := sportybet | bet9ja.

#[global] Instance platform_eq_dec : EqDecision platform.
Proof. solve_decision. Defined.

(** The string a platform is written as in a request. *)
Definition platform_name (p : platform) : string :=
  match p with
  | sportybet => "sportybet"
  | bet9ja => "bet9ja"
  end.

Record ConvertRequest : Type := {
  code : string;
  from_platform : platform;
  to_platform : platform
}.

Definition MARKET_MAP : gmap (string * string) string :=
  list_to_map [
    (("sportybet", "1X2"), "Match Result");
    (("sportybet", "GG"), "Both Teams To Score");
    (("sportybet", "O/U 2.5"), "Over/Under 2.5 Goals");
    (("bet9ja", "Match Result"), "1X2");
    (("bet9ja", "Both Teams To Score"), "GG");
    (("bet9ja", "Over/Under 2.5 Goals"), "O/U 2.5")
  ].

(** [MARKET_MAP.get((from_plat, market_in), market_in)]: the key is hashed
    first, which fails on a list or a dictionary; a market that is no string
    equals no key of the table. *)
Definition MARKET_MAP_get (from_plat : string) (market_in : value) : result value :=
  if hashable market_in then
    Ok (match market_in with
        | VStr m => default market_in (VStr <$> MARKET_MAP !! (from_plat, m))
        | _ => market_in
        end)
  else Raise TypeError.

(** The body of the loop of [map_markets]: [{**leg, "market": mapped}]. *)
Definition map_market (from_plat : string) (leg : dict) : result dict :=
  let market_in := get_default "market" (VStr "") leg in
  rbind (MARKET_MAP_get from_plat market_in) (λ mapped,
  Ok (<["market" := mapped]> leg)).

Fixpoint map_markets (legs : list dict) (from_plat to_plat : string)
  : result (list dict) :=
  match legs with
  | [] => Ok []
  | leg :: legs' =>
      rbind (map_market from_plat leg) (λ leg',
      rbind (map_markets legs' from_plat to_plat) (λ out,
      Ok (leg' :: out)))
  end.

(** *** Decimal output *)

Definition digit_char (d : Z) : char := PyStr.chr (48 + Z.to_N d).

(** The decimal digits of [n >= 0], the most significant first; [fuel]
    bounds their number. *)
Fixpoint digits_upto (fuel : nat) (n : Z) : string :=
  match fuel with
  | O => ""
  | S fuel' =>
      (if (n <? 10)%Z then "" else digits_upto fuel' (n / 10))
      +:+ String (digit_char (n mod 10)) ""
  end.

(** [str(n)] for [n >= 0]: a number has no more decimal digits than
    binary ones. *)
Definition str_of_nonneg (n : Z) : string :=
  digits_upto (S (Z.to_nat (Z.log2 n))) n.

Fixpoint zeros (k : nat) : string :=
  match k with
  | O => ""
  | S k' => String "0" (zeros k')
  end.

(** [s.zfill(width)] for a string of digits. *)
Definition zfill (width : nat) (s : string) : string :=
  zeros (width - Text.length s) +:+ s.

(** [f"{n:05d}"]: the sign counts in the width. *)
Definition format_05d (n : Z) : string :=
  if (n <? 0)%Z then String "-" (zfill 4 (str_of_nonneg (- n)))
  else zfill 5 (str_of_nonneg n).

(** *** The text path *)

(** [{"home": home, "away": away, "market": market, "pick": pick,
     "odds": odds}] *)
Definition make_leg (home away market pick odds : value) : dict :=
  <["home" := home]> (<["away" := away]> (<["market" := market]>
    (<["pick" := pick]> (<["odds" := odds]> ∅)))).

Definition flags_0 : Regex.flags := Regex.Flags false false.
Definition flags_I : Regex.flags := Regex.Flags true false.
Definition flags_S : Regex.flags := Regex.Flags false true.

Import Regex.

(** [(.+?)\s+v(?:s|\.)?\s+(.+)] *)
Definition versus_re : regex :=
  RSeq (RGroup 1 (RPlus false CAny))
 (RSeq (RPlus true CSpace)
 (RSeq (RChar (CLit "v"))
 (RSeq (ROpt (RAlt (RChar (CLit "s")) (RChar (CLit "."))))
 (RSeq (RPlus true CSpace)
       (RGroup 2 (RPlus true CAny)))))).

(** [(.+?)\s+vs\s+(.+)] *)
Definition versus_re2 : regex :=
  RSeq (RGroup 1 (RPlus false CAny))
 (RSeq (RPlus true CSpace)
 (RSeq (RChar (CLit "v"))
 (RSeq (RChar (CLit "s"))
 (RSeq (RPlus true CSpace)
       (RGroup 2 (RPlus true CAny)))))).

(** [[l.strip() for l in text.splitlines() if l.strip()]] *)
Definition stripped_lines (text : string) : list string :=
  PyStr.strip <$> filter (λ l, PyStr.truthy (PyStr.strip l) = true) (PyStr.splitlines text).

(** The match object the loop body works with: the first pattern, and the
    second one when the first does not match. *)
Definition versus_match (line : string) : option captures :=
  match search flags_I versus_re line with
  | Some m => Some m
  | None => search flags_I versus_re2 line
  end.

(** The legs one line adds to [legs]. *)
Definition legs_of_line (line : string) : list dict :=
  match versus_match line with
  | Some m =>
      let home := PyStr.strip (group m 1) in
      let away := PyStr.strip (group m 2) in
      [make_leg (VStr home) (VStr away) (VStr "Unknown") (VStr "") VNone]
  | None => []
  end.

Definition parse_slip_from_text (text : string) : option (list dict) :=
  let legs := stripped_lines text ≫= legs_of_line in
  match legs with
  | [] => None
  | _ => Some legs
  end.

(** *** The payload path *)

Definition dquote : char := 34%N.

(** [\s*=\s*({.*?});] *)
Definition assigned_object : regex :=
  RSeq (RStar true CSpace)
 (RSeq (RChar (CLit "="))
 (RSeq (RStar true CSpace)
 (RSeq (RGroup 1 (RSeq (RChar (CLit "{"))
                 (RSeq (RStar false CAny) (RChar (CLit "}")))))
       (RChar (CLit ";"))))).

(** [({\"key\".*?})] *)
Definition keyed_object (key : string) : regex :=
  RGroup 1 (RSeq (RChar (CLit "{"))
           (RSeq (RChar (CLit dquote))
           (lit key
           (RSeq (RChar (CLit dquote))
           (RSeq (RStar false CAny) (RChar (CLit "}"))))))).

Definition patterns : list regex := [
  lit "window.__INITIAL_STATE__" assigned_object;
  lit "window.__DATA__" assigned_object;
  lit "var" (RSeq (RPlus true CSpace) (lit "initialState" assigned_object));
  keyed_object "booking";
  keyed_object "bets"
].

(** *** The page-fetch tool *)

(** The calls the program makes to Playwright. Each one is answered by
    the tool, with a value or with an exception. *)
Inductive browserE : Type → Type :=
| Start : browserE unit                      (* with sync_playwright() as p *)
| Launch : browserE unit                     (* p.chromium.launch(...) *)
| NewPage : browserE unit                    (* browser.new_page() *)
| SetDefaultTimeout (ms : Z) : browserE unit (* page.set_default_timeout(ms) *)
| Goto (url : string) : browserE unit        (* page.goto(url) *)
| QuerySelector (sel : string) : browserE bool
    (* page.query_selector(sel), by its truth value *)
| InnerText (sel : string) : browserE string (* page.inner_text(sel) *)
| Content : browserE string                  (* page.content() *)
| Close : browserE unit                      (* browser.close() *)
| Stop : browserE unit.                      (* leaving the with block *)

(** A computation that calls the tool a finite number of times. *)
Inductive prog (A : Type) : Type :=
| Ret : A → prog A
| Call : ∀ T, browserE T → (result T → prog A) → prog A.
Arguments Ret {A} a.
Arguments Call {A T} e k.

Fixpoint bind {A B} (p : prog A) (k : A → prog B) : prog B :=
  match p with
  | Ret a => k a
  | Call e h => Call e (λ r, bind (h r) k)
  end.

#[global] Instance prog_bind : MBind prog := λ A B k p, bind p k.
#[global] Instance prog_ret : MRet prog := λ A a, Ret a.

(** A call whose exception leaves the enclosing block: the block goes on
    with the value, or ends with the exception. *)
Definition call {T A} (e : browserE T) (k : T → prog (result A)) : prog (result A) :=
  Call e (λ r, match r with Ok t => k t | Raise x => Ret (Raise x) end).

(** An event with its type hidden, for traces. *)
Inductive event : Type :=
| Event : ∀ T, browserE T → event.
Arguments Event {T} e.

(** How the tool answers: by the number of calls made so far and the
    call. *)
Definition tool : Type := ∀ T, nat → browserE T → result T.

(** Runs a computation against a tool; [n] calls were made before. The
    result comes with the calls made, in order. *)
Fixpoint exec_from {A} (w : tool) (n : nat) (p : prog A) : A * list event :=
  match p with
  | Ret a => (a, [])
  | Call e k =>
      let '(a, tr) := exec_from w (S n) (k (w _ n e)) in
      (a, Event e :: tr)
  end.

Definition exec {A} (w : tool) (p : prog A) : A * list event := exec_from w 0 p.

(** *** Results *)

(** [{"legs": legs}] *)
Record slip : Type := Slip { legs : list dict }.

Record ConvertResult : Type := {
  ok : bool;
  message : string;
  converted_code : option string;
  preview : option slip
}.

Section Environment.

(** [json.loads], which the program takes from the standard library: the
    value a text denotes, or the exception it raises on a text that is
    not JSON. *)
Variable json_loads : string → result value.

(** [hash] on strings, which differs from one process to the next. *)
Variable py_hash : string → Z.

(** The second attempt, in the handler of the first one: the same text
    is given to [json.loads] again. *)
Definition reparse (txt : string) : result value := json_loads txt.

(** The loop of [extract_json_payload_from_html] over the patterns. *)
Fixpoint extract_with (pats : list regex) (html : string) : option value :=
  match pats with
  | [] => None
  | pat :: pats' =>
      match search flags_S pat html with
      | None => extract_with pats' html
      | Some m =>
          match json_loads (group m 1) with
          | Ok payload => Some payload
          | Raise _ =>
              let txt := group m 1 in
              match reparse txt with
              | Ok payload => Some payload
              | Raise _ => extract_with pats' html
              end
          end
      end
  end.

Definition extract_json_payload_from_html (html : string) : option value :=
  extract_with patterns html.

(** [float(odds) if odds else None], inside [try] / [except Exception]. *)
Definition coerce_odds (odds : value) : value :=
  try_except
    (if truthy odds then rbind (py_float odds) (λ f, Ok (VFloat f)) else Ok VNone)
    VNone.

(** The body of the loop over the items; [it.get] exists on a
    dictionary only. *)
Definition leg_of_item (it : value) : result dict :=
  match it with
  | VDict it =>
      let home := py_or (py_or (py_or (get "home" it) (get "team1" it)) (get "homeName" it)) (VStr "") in
      let away := py_or (py_or (py_or (get "away" it) (get "team2" it)) (get "awayName" it)) (VStr "") in
      let market := py_or (py_or (py_or (get "market" it) (get "marketName" it)) (get "type" it)) (VStr "") in
      let pick := py_or (py_or (get "pick" it) (get "selection" it)) (VStr "") in
      let odds := py_or (py_or (py_or (get "odds" it) (get "price" it)) (get "odd" it)) VNone in
      let odds := coerce_odds odds in
      Ok (make_leg home away market pick odds)
  | _ => Raise AttributeError
  end.

Fixpoint legs_of_items (data : list value) : result (list dict) :=
  match data with
  | [] => Ok []
  | it :: data' =>
      rbind (leg_of_item it) (λ leg,
      rbind (legs_of_items data') (λ legs,
      Ok (leg :: legs)))
  end.

Definition candidate_keys : list string :=
  ["booking"; "slip"; "bets"; "items"; "data"].

(** The loop of [parse_slip_from_payload] over the keys. *)
Fixpoint scan_keys (keys : list string) (payload : dict)
  : result (option (list dict)) :=
  match keys with
  | [] => Ok None
  | key :: keys' =>
      let data := get key payload in
      if negb (truthy data) then scan_keys keys' payload
      else
        match data with
        | VList items =>
            rbind (legs_of_items items) (λ legs,
            match legs with
            | [] => scan_keys keys' payload
            | _ => Ok (Some legs)
            end)
        | _ => scan_keys keys' payload
        end
  end.

(** [payload.get] exists on a dictionary only. *)
Definition parse_slip_from_payload (payload : value)
  : result (option (list dict)) :=
  match payload with
  | VDict d => scan_keys candidate_keys d
  | _ => Raise AttributeError
  end.

(** *** The code synthesizer *)

Definition generate_booking_code_for_demo (to_plat source_code : string) : string :=
  let prefix := if Text.eqb to_plat "bet9ja" then "BJ" else "SP" in
  prefix +:+ format_05d (Z.abs (py_hash source_code) mod 100000).

(** *** The slip resolver *)

Definition urls (code : string) : list string := [
  "https://www.sportybet.com/ng/m/sporty/booking?bookingCode=" +:+ code;
  "https://www.sportybet.com/ng/m/?b=" +:+ code;
  "https://www.sportybet.com/ng/m/sporty-code-share/" +:+ code;
  "https://www.sportybet.com/share/" +:+ code
].

Definition selectors_to_try : list string := [
  "div.share-bet-slip";
  "div.booking-container";
  "div.bet-slip";
  "div.sports-bet-slip";
  "div[class*='slip']"
].

(** [if legs:] on what a parser returned. *)
Definition truthy_legs (l : option (list dict)) : bool :=
  match l with
  | Some (_ :: _) => true
  | _ => false
  end.

(** One turn of the loop over the selectors, inside its own [try]: an
    exception moves on to the next selector. [Some legs] is the
    [return] of the function. *)
Definition try_selector (sel : string) : prog (option (list dict)) :=
  r ← call (QuerySelector sel) (λ found,
        if found then
          call (InnerText sel) (λ text,
            let l := parse_slip_from_text text in
            if truthy_legs l
            then call Close (λ _, Ret (Ok l))
            else Ret (Ok None))
        else Ret (Ok None));
  Ret (try_except r None).

Fixpoint try_selectors (sels : list string) : prog (option (list dict)) :=
  match sels with
  | [] => Ret None
  | sel :: sels' =>
      r ← try_selector sel;
      match r with
      | Some l => Ret (Some l)
      | None => try_selectors sels'
      end
  end.

(** Step 2 of a turn of the loop over the URLs: the embedded payload. An
    exception here leaves the loop. *)
Definition try_payload : prog (result (option (list dict))) :=
  call Content (λ page_html,
    match extract_json_payload_from_html page_html with
    | Some payload =>
        if truthy payload then
          match parse_slip_from_payload payload with
          | Ok l =>
              if truthy_legs l
              then call Close (λ _, Ret (Ok l))
              else Ret (Ok None)
          | Raise x => Ret (Raise x)
          end
        else Ret (Ok None)
    | None => Ret (Ok None)
    end).

(** The loop over the URLs, then the final [browser.close()]. *)
Fixpoint try_urls (us : list string) : prog (result (option (list dict))) :=
  match us with
  | [] => call Close (λ _, Ret (Ok None))
  | url :: us' =>
      Call (Goto url) (λ r,
        match r with
        | Raise _ => try_urls us'
        | Ok _ =>
            r1 ← try_selectors selectors_to_try;
            match r1 with
            | Some l => Ret (Ok (Some l))
            | None =>
                r2 ← try_payload;
                match r2 with
                | Ok None => try_urls us'
                | _ => Ret r2
                end
            end
        end)
  end.

(** Returns [None] on failure: every exception ends in one of the two
    handlers. *)
Definition fetch_sportybet_slip_playwright (code : string) (timeout : Z)
  : prog (option slip) :=
  Call Start (λ r,
    match r with
    | Raise _ => Ret None
    | Ok _ =>
        body ← call Launch (λ _, call NewPage (λ _,
               call (SetDefaultTimeout (timeout * 1000)) (λ _,
               try_urls (urls code))));
        Call Stop (λ r,
          match r, body with
          | Ok _, Ok (Some l) => Ret (Some (Slip l))
          | _, _ => Ret None
          end)
    end).

(** *** The endpoint *)

Definition demo : gmap string slip :=
  {[ "BJ99999" :=
       Slip [make_leg (VStr "Barcelona") (VStr "Real Madrid") (VStr "O/U 2.5")
                      (VStr "OVER") (VFloat (PyFloat.of_decimal false 195 (-2)))] ]}.

Definition convert (req : ConvertRequest) : prog (result ConvertResult) :=
  if decide (from_platform req = to_platform req) then
    Ret (Ok {| ok := false; message := "From/To platforms are the same.";
               converted_code := None; preview := None |})
  else
    s ← (if Text.eqb (platform_name (from_platform req)) "sportybet" then
           fetch_sportybet_slip_playwright (code req) 25
         else if Text.eqb (platform_name (from_platform req)) "bet9ja" then
           Ret (demo !! code req)
         else Ret None);
    match s with
    | None =>
        Ret (Ok {| ok := false;
                   message := "Code not found or could not fetch (try a valid SportyBet code).";
                   converted_code := None; preview := None |})
    | Some s =>
        Ret (rbind (map_markets (legs s) (platform_name (from_platform req))
                                (platform_name (to_platform req))) (λ out,
             let preview := Slip out in
             let converted_code :=
               generate_booking_code_for_demo (platform_name (to_platform req)) (code req) in
             Ok {| ok := true; message := "Converted (live scrape).";
                   converted_code := Some converted_code;
                   preview := Some preview |}))
    end.

End Environment.

(** *** The connection registry *)

(** A WebSocket, by its identity. *)
Definition websocket : Type := nat.

(** [l.remove(x)]: the first element equal to [x] goes, and [ValueError]
    is raised when there is none. *)
Fixpoint list_remove (x : websocket) (l : list websocket) : result (list websocket) :=
  match l with
  | [] => Raise ValueError
  | y :: l' =>
      if decide (y = x) then Ok l'
      else rbind (list_remove x l') (λ r, Ok (y :: r))
  end.

(** [ConnectionManager.connect]: the connection is registered once it has
    been accepted; [accepted] is how [ws.accept()] ends. *)
Definition connect (accepted : result unit) (ws : websocket)
    (active : list websocket) : result (list websocket) :=
  rbind accepted (λ _, Ok (active ++ [ws])).

(** [ConnectionManager.disconnect] *)
Definition disconnect (ws : websocket) (active : list websocket)
  : result (list websocket) :=
  if bool_decide (ws ∈ active) then list_remove ws active else Ok active.

(** The first loop of [ConnectionManager.broadcast], from the [i]-th
    connection on: [send i conn] is how the [i]-th [send_text] ends. The
    result is [to_remove], with the connections that took the message. *)
Fixpoint send_all (send : nat → websocket → result unit) (i : nat)
    (conns : list websocket) : list websocket * list websocket :=
  match conns with
  | [] => ([], [])
  | conn :: conns' =>
      let '(to_remove, sent) := send_all send (S i) conns' in
      match send i conn with
      | Ok _ => (to_remove, conn :: sent)
      | Raise _ => (conn :: to_remove, sent)
      end
  end.

(** The second loop: [for c in to_remove: self.disconnect(c)]. *)
Fixpoint disconnect_all (to_remove active : list websocket)
  : result (list websocket) :=
  match to_remove with
  | [] => Ok active
  | c :: cs => rbind (disconnect c active) (disconnect_all cs)
  end.

(** [ConnectionManager.broadcast], run while no other task changes the
    registry: the registry afterwards, and the connections that took the
    message. *)
Definition broadcast (send : nat → websocket → result unit)
    (active : list websocket) : result (list websocket) * list websocket :=
  let '(to_remove, sent) := send_all send 0 active in
  (disconnect_all to_remove active, sent).

End Converter.

(** * Specification *)

(** The notions the properties below are stated with. *)
Module Spec.
Import PyStr Regex Converter.

(** *** What a pattern matches *)

(** What a pattern matches, and what it captures: [matches fl r caps w
    caps'] when [r] matches exactly the word [w] and turns the captures
    [caps] into [caps']. *)
Fixpoint matches (fl : flags) (r : regex) (caps : captures) (w : string)
    (caps' : captures) : Prop :=
  match r with
  | RChar c => ∃ ch, w = String ch "" ∧ class_match fl c ch = true ∧ caps' = caps
  | RSeq r1 r2 =>
      ∃ w1 w2 caps1, w = w1 +:+ w2 ∧ matches fl r1 caps w1 caps1
                     ∧ matches fl r2 caps1 w2 caps'
  | RAlt r1 r2 => matches fl r1 caps w caps' ∨ matches fl r2 caps w caps'
  | ROpt r1 => matches fl r1 caps w caps' ∨ (w = "" ∧ caps' = caps)
  | RPlus _ c => w ≠ "" ∧ all (class_match fl c) w = true ∧ caps' = caps
  | RStar _ c => all (class_match fl c) w = true ∧ caps' = caps
  | RGroup n r1 => ∃ caps1, matches fl r1 caps w caps1 ∧ caps' = (n, w) :: caps1
  end.

(** *** The text path *)

(** The lines the extractor reads hold no line feed, so [.] matches each
    of their characters. *)
Definition no_newline (s : string) : Prop :=
  all (class_match flags_I CAny) s = true.

(** The white space of Unicode, by code point: TAB, LF, VT, FF, CR, FS,
    GS, RS, US, space, NEL, NBSP, the Ogham space mark, EN QUAD to HAIR
    SPACE, the line and the paragraph separator, the narrow no-break space,
    the medium mathematical space and the ideographic space. *)
Definition whitespace_chars : list char := [
  9; 10; 11; 12; 13; 28; 29; 30; 31; 32; 133; 160; 5760;
  8192; 8193; 8194; 8195; 8196; 8197; 8198; 8199; 8200; 8201; 8202;
  8232; 8233; 8239; 8287; 12288
]%N.

Definition whitespace (c : char) : Prop := c ∈ whitespace_chars.

(** A text of white space only. *)
Definition blank (w : string) : Prop := Forall whitespace (Text.to_list w).

Definition spaces (w : string) : Prop := w ≠ "" ∧ blank w.

(** [t] is [s] without the white space at its two ends. *)
Definition trimmed (s t : string) : Prop :=
  ∃ l r, s = l +:+ t +:+ r ∧ blank l ∧ blank r
    ∧ (∀ c t', t = String c t' → ¬ whitespace c)
    ∧ (∀ t' c, t = t' +:+ String c "" → ¬ whitespace c).

(** The characters that end a line: LF, VT, FF, CR, FS, GS, RS, NEL, the
    line and the paragraph separator. *)
Definition linebreak_chars : list char :=
  [10; 11; 12; 13; 28; 29; 30; 133; 8232; 8233]%N.

Definition linebreak (c : char) : Prop := c ∈ linebreak_chars.

(** A text without a line boundary. *)
Definition unbroken (l : string) : Prop := Forall (λ c, ¬ linebreak c) (Text.to_list l).

(** The boundary [b] in front of [rest]: CR LF together, or one character,
    which is not a CR in front of an LF. *)
Definition boundary (b rest : string) : Prop :=
  b = String 13%N (String 10%N "")
  ∨ ∃ c, b = String c "" ∧ linebreak c
         ∧ ¬ (c = 13%N ∧ ∃ rest', rest = String 10%N rest').

(** The lines of a text: what stands between its line boundaries; a
    boundary at the very end opens no further line. *)
Inductive lines_of : string → list string → Prop :=
| lines_of_empty : lines_of "" []
| lines_of_last l : l ≠ "" → unbroken l → lines_of l [l]
| lines_of_line l b rest ls :
    unbroken l → boundary b rest → lines_of rest ls →
    lines_of (l +:+ b +:+ rest) (l :: ls).

(** The versus token: [v], [vs] or [v.], in any letter case; the long s
    (U+017F) is a lower-case form of s. *)
Definition versus_word (w : string) : Prop :=
  w ∈ ["v"; "V"; "vs"; "vS"; "vſ"; "Vs"; "VS"; "Vſ"; "v."; "V."].

(** The token with white space on both sides. *)
Definition separator (sep : string) : Prop :=
  ∃ w1 vw w2, sep = w1 +:+ vw +:+ w2 ∧ spaces w1 ∧ versus_word vw ∧ spaces w2.

(** [line] is [h], a separator, [a], with both names non-empty. *)
Definition split_at_versus (line h a : string) : Prop :=
  ∃ sep, line = h +:+ sep +:+ a ∧ h ≠ "" ∧ a ≠ "" ∧ separator sep.

Definition has_versus (line : string) : Prop :=
  ∃ h a, split_at_versus line h a.

(** The split at the first separator of the line: no split has a shorter
    first name. *)
Definition first_split (line h a : string) : Prop :=
  split_at_versus line h a
  ∧ ∀ h' a', split_at_versus line h' a' → (Text.length h ≤ Text.length h')%nat.

(** The first pattern after its first group: [\s+v(?:s|\.)?\s+(.+)]. *)
Definition versus_tail : regex :=
  RSeq (RPlus true CSpace)
 (RSeq (RChar (CLit "v"))
 (RSeq (ROpt (RAlt (RChar (CLit "s")) (RChar (CLit "."))))
 (RSeq (RPlus true CSpace)
       (RGroup 2 (RPlus true CAny))))).

(** The leg of the text path for two names. *)
Definition text_leg (home away : string) : dict :=
  make_leg (VStr home) (VStr away) (VStr "Unknown") (VStr "") VNone.

(** The fields of a leg. *)
Definition leg_fields : gset string :=
  {[ "home"; "away"; "market"; "pick"; "odds" ]}.

(** The leg with these five fields and no other. *)
Definition leg_is (home away market pick odds : value) (leg : dict) : Prop :=
  leg !! "home" = Some home ∧ leg !! "away" = Some away
  ∧ leg !! "market" = Some market ∧ leg !! "pick" = Some pick
  ∧ leg !! "odds" = Some odds ∧ dom leg = leg_fields.

(** The legs that the lines of a text yield. A line is read without the
    white space at its ends. When it holds a separator, it gives one leg:
    home and away are the names around its first separator, again without
    the white space at their ends, the market is "Unknown", the pick is
    empty and the odds are absent. A line without a separator, an empty
    one in particular, gives nothing. *)
Inductive extracted : list string → list dict → Prop :=
| extracted_nil : extracted [] []
| extracted_leg raw line h a home away leg lines legs :
    trimmed raw line →
    first_split line h a →
    trimmed h home → trimmed a away →
    leg_is (VStr home) (VStr away) (VStr "Unknown") (VStr "") VNone leg →
    extracted lines legs →
    extracted (raw :: lines) (leg :: legs)
| extracted_skip raw line lines legs :
    trimmed raw line →
    ¬ has_versus line →
    extracted lines legs →
    extracted (raw :: lines) legs.

(** *** The payload path *)

(** The first truthy value of a list, or [dflt] when there is none. *)
Fixpoint first_truthy (vs : list value) (dflt : value) : value :=
  match vs with
  | [] => dflt
  | v :: vs' => if truthy v then v else first_truthy vs' dflt
  end.

(** A value that is a list with at least one element. *)
Definition nonempty_list (v : value) : bool :=
  match v with
  | VList (_ :: _) => true
  | _ => false
  end.

(** [{"team1": "X", "team2": "Y", "price": "1.5"}] *)
Definition bets_item : dict :=
  <["team1" := VStr "X"]> (<["team2" := VStr "Y"]> (<["price" := VStr "1.5"]> ∅)).

(** [{"bets": [{"team1": "X", "team2": "Y", "price": "1.5"}]}] *)
Definition bets_payload : value :=
  VDict (<["bets" := VList [VDict bets_item]]> ∅).

(** [{"booking": [], "bets": [{"team1": "X", "team2": "Y", "price": "1.5"}]}] *)
Definition empty_booking_payload : dict :=
  <["booking" := VList []]> (<["bets" := VList [VDict bets_item]]> ∅).

(** [{"odds": 0, "price": "2.0"}] *)
Definition zero_odds_item : dict :=
  <["odds" := VInt 0]> (<["price" := VStr "2.0"]> ∅).

(** The locator without its second attempt: the first pattern, in order,
    that matches and whose capture [json.loads] accepts. *)
Fixpoint first_parsed (json_loads : string → result value) (pats : list regex)
    (html : string) : option value :=
  match pats with
  | [] => None
  | pat :: pats' =>
      match search flags_S pat html with
      | Some m =>
          match json_loads (group m 1) with
          | Ok payload => Some payload
          | Raise _ => first_parsed json_loads pats' html
          end
      | None => first_parsed json_loads pats' html
      end
  end.

Definition quoted (s : string) : string :=
  String dquote (s +:+ String dquote "").

(** [{"bets":[{"home":"A","away":"B"},]}], a list with a trailing comma. *)
Definition trailing_comma_object : string :=
  "{" +:+ quoted "bets" +:+ ":[{" +:+ quoted "home" +:+ ":" +:+ quoted "A" +:+ ","
      +:+ quoted "away" +:+ ":" +:+ quoted "B" +:+ "},]}".

(** What the last pattern captures in it: up to the first closing brace. *)
Definition trailing_comma_prefix : string :=
  "{" +:+ quoted "bets" +:+ ":[{" +:+ quoted "home" +:+ ":" +:+ quoted "A" +:+ ","
      +:+ quoted "away" +:+ ":" +:+ quoted "B" +:+ "}".

(** A page that assigns the object to [window.__DATA__]. *)
Definition trailing_comma_page : string :=
  "<script>window.__DATA__ = " +:+ trailing_comma_object +:+ ";</script>".

(** *** The market translator *)

(** The market the table gives for a market of the source platform: the
    entry under [(from_plat, market_in)], or the market itself. *)
Definition translated (from_plat : string) (market_in : value) : value :=
  match market_in with
  | VStr m => default market_in (VStr <$> MARKET_MAP !! (from_plat, m))
  | _ => market_in
  end.

(** What the loop does to one leg. *)
Definition translated_leg (from_plat : string) (leg : dict) : dict :=
  <["market" := translated from_plat (get_default "market" (VStr "") leg)]> leg.

(** [{"bets": [{"home": "A", "away": "B", "market": {"id": 1}}]}] *)
Definition object_market_payload : value :=
  VDict {[ "bets" :=
    VList [VDict (<["home" := VStr "A"]> (<["away" := VStr "B"]>
                  {[ "market" := VDict {[ "id" := VInt 1 ]} ]}))] ]}.

(** The text [{"bets":[{"home":"A","away":"B","market":{"id":1}}]}]. *)
Definition object_market_text : string :=
  "{" +:+ quoted "bets" +:+ ":[{" +:+ quoted "home" +:+ ":" +:+ quoted "A" +:+ ","
      +:+ quoted "away" +:+ ":" +:+ quoted "B" +:+ ","
      +:+ quoted "market" +:+ ":{" +:+ quoted "id" +:+ ":1}}]}".

(** A page that assigns that object to [window.__DATA__]. *)
Definition object_market_page : string :=
  "<script>window.__DATA__ = " +:+ object_market_text +:+ ";</script>".

(** [json.loads] as far as that text goes. *)
Definition loads_object_market (txt : string) : result value :=
  if decide (txt = object_market_text) then Ok object_market_payload
  else Raise ValueError.

(** A tool whose pages have none of the slip containers and hold the
    script above. *)
Definition object_market_tool : tool :=
  λ T _ e,
    match e in browserE T return result T with
    | QuerySelector _ => Ok false
    | InnerText _ => Ok ""
    | Content => Ok object_market_page
    | _ => Ok tt
    end.

(** *** The code synthesizer *)

(** [^(SP|BJ)\d{5}$], as a pattern for the whole string. *)
Definition booking_code_re : regex :=
  RSeq (RGroup 1 (RAlt (lit "S" (RChar (CLit "P"))) (lit "B" (RChar (CLit "J")))))
 (RSeq (RChar CDigit) (RSeq (RChar CDigit) (RSeq (RChar CDigit)
 (RSeq (RChar CDigit) (RChar CDigit))))).

(** The number a string of decimal digits denotes, after the digits
    [acc]. *)
Fixpoint digits_value (acc : Z) (s : string) : Z :=
  match s with
  | "" => acc
  | String c s' => digits_value (10 * acc + (Z.of_N (PyStr.code c) - 48)) s'
  end.

(** *** The endpoint *)

(** [{code: "BJ99999", from_platform: "bet9ja", to_platform: "sportybet"}] *)
Definition demo_request : ConvertRequest :=
  {| code := "BJ99999"; from_platform := bet9ja; to_platform := sportybet |}.

(** A request from a platform to itself. *)
Definition same_platform_request : ConvertRequest :=
  {| code := "SP12345"; from_platform := sportybet; to_platform := sportybet |}.

(** The answer to a request from a platform to itself. *)
Definition same_platform_result : ConvertResult :=
  {| ok := false; message := "From/To platforms are the same.";
     converted_code := None; preview := None |}.

(** A tool that is not installed: every call raises. *)
Definition no_tool : tool := λ T _ _, Raise ToolError.

(** The answer to a code that was not resolved. *)
Definition not_found_result : ConvertResult :=
  {| ok := false;
     message := "Code not found or could not fetch (try a valid SportyBet code).";
     converted_code := None; preview := None |}.

(** *** The slip resolver *)

(** The URL of a navigation call. *)
Definition goto_url (ev : event) : option string :=
  match ev with
  | Event e => match e with Goto url => Some url | _ => None end
  end.

(** A trace whose last call is [browser.close()]. *)
Definition closes (tr : list event) : Prop := ∃ tr', tr = tr' ++ [Event Close].

(** The first four calls of a resolution. *)
Definition opening (timeout : Z) : list event :=
  [Event Start; Event Launch; Event NewPage; Event (SetDefaultTimeout (timeout * 1000))].

(** The tool starts and opens a page. *)
Definition opens (w : tool) (timeout : Z) : Prop :=
  w unit 0 Start = Ok tt ∧ w unit 1 Launch = Ok tt ∧ w unit 2 NewPage = Ok tt
  ∧ w unit 3 (SetDefaultTimeout (timeout * 1000)) = Ok tt.

(** A tool on whose pages every container reads [A vs B]. *)
Definition versus_tool : tool :=
  λ T _ e,
    match e in browserE T return result T with
    | QuerySelector _ => Ok true
    | InnerText _ => Ok "A vs B"
    | Content => Ok ""
    | _ => Ok tt
    end.

(** A tool that reaches no page. *)
Definition offline_tool : tool :=
  λ T _ e,
    match e in browserE T return result T with
    | Goto _ => Raise ToolError
    | QuerySelector _ => Ok false
    | InnerText _ => Ok ""
    | Content => Ok ""
    | _ => Ok tt
    end.

(** [{"bets": [1]}]: the list under [bets] holds a number. *)
Definition number_item_payload : value :=
  VDict {[ "bets" := VList [VInt 1] ]}.

(** The text [{"bets":[1]}] and a page that assigns it. *)
Definition number_item_text : string := "{" +:+ quoted "bets" +:+ ":[1]}".
Definition number_item_page : string :=
  "<script>window.__DATA__ = " +:+ number_item_text +:+ ";</script>".

(** [json.loads] as far as that text goes. *)
Definition loads_number_item (txt : string) : result value :=
  if decide (txt = number_item_text) then Ok number_item_payload
  else Raise ValueError.

(** A tool whose pages have none of the slip containers and hold that
    script. *)
Definition number_item_tool : tool :=
  λ T _ e,
    match e in browserE T return result T with
    | QuerySelector _ => Ok false
    | InnerText _ => Ok ""
    | Content => Ok number_item_page
    | _ => Ok tt
    end.

(** *** The payload path, continued *)

(** A JSON object. *)
Definition is_dict (v : value) : bool :=
  match v with
  | VDict _ => true
  | _ => false
  end.

(** Absent odds, or a float. *)
Definition is_odds (v : value) : Prop := v = VNone ∨ ∃ f, v = VFloat f.

(** A text that opens with a left brace and ends with a right brace. *)
Definition braced (txt : string) : Prop := ∃ mid, txt = "{" +:+ mid +:+ "}".

(** *** The market translator, continued *)

(** The other platform. *)
Definition other (p : platform) : platform :=
  match p with
  | sportybet => bet9ja
  | bet9ja => sportybet
  end.

(** A market of the table for the platform. *)
Definition known_market (p : platform) (leg : dict) : Prop :=
  ∃ m, leg !! "market" = Some (VStr m) ∧ is_Some (MARKET_MAP !! (platform_name p, m)).

End Spec.

(** * Properties *)

(** ** Strings *)

Module PyStrFacts.
Import PyStr Spec.

Lemma app_nil_r (s : string) : s +:+ "" = s.
Proof. induction s as [|c s IH]; simpl; congruence. Qed.

Lemma app_assoc (a b c : string) : (a +:+ b) +:+ c = a +:+ (b +:+ c).
Proof. induction a as [|x a IH]; simpl; congruence. Qed.

Lemma length_app (a b : string) :
  Text.length (a +:+ b) = Text.length a + Text.length b.
Proof. induction a as [|x a IH]; simpl; congruence. Qed.

Lemma app_eq_nil (a b : string) : a +:+ b = "" → a = "" ∧ b = "".
Proof. destruct a; simpl; [tauto | discriminate]. Qed.

Lemma substring_app (a b : string) :
  Text.substring 0 (Text.length a) (a +:+ b) = a.
Proof. induction a as [|x a IH]; simpl; [by destruct b | by rewrite IH]. Qed.

Lemma all_app p (a b : string) : all p (a +:+ b) = all p a && all p b.
Proof. induction a as [|x a IH]; simpl; [done|]. rewrite IH. by rewrite andb_assoc. Qed.

Lemma all_impl (p q : char → bool) (s : string) :
  (∀ c, p c = true → q c = true) → all p s = true → all q s = true.
Proof.
  intros Hpq. induction s as [|c s IH]; simpl; [done|].
  rewrite !andb_true_iff. intros [??]; auto.
Qed.

Lemma all_lstrip p s : all p s = true → all p (lstrip s) = true.
Proof.
  induction s as [|c s IH]; simpl; [done|].
  rewrite andb_true_iff. intros [Hc Hs].
  destruct (isspace c); [auto|]. simpl. by rewrite Hc, Hs.
Qed.

Lemma all_rstrip p s : all p s = true → all p (rstrip s) = true.
Proof.
  induction s as [|c s IH]; simpl; [done|].
  rewrite andb_true_iff. intros [Hc Hs].
  specialize (IH Hs). destruct (rstrip s) as [|c' r].
  - destruct (isspace c); simpl; [done|]. by rewrite Hc.
  - change (all p (String c (String c' r)) = true).
    change (all p (String c (String c' r))) with (p c && all p (String c' r)).
    by rewrite Hc, IH.
Qed.

Lemma all_strip p s : all p s = true → all p (strip s) = true.
Proof. intros. by apply all_rstrip, all_lstrip. Qed.

(** No line of [splitlines] holds a line boundary. *)
Lemma splitlines_from_no_break cur s l :
  all (λ c, negb (is_linebreak c)) cur = true →
  l ∈ splitlines_from cur s →
  all (λ c, negb (is_linebreak c)) l = true.
Proof.
  revert cur. induction s as [s IH] using (induction_ltof1 _ Text.length).
  unfold ltof in IH. intros cur Hcur. destruct s as [|c s]; simpl.
  - destruct cur; [by intros ?%elem_of_nil | by intros ->%list_elem_of_singleton].
  - destruct (is_linebreak c) eqn:Hc.
    + intros [->|Hl]%elem_of_cons; [done|].
      destruct s as [|c' s'].
      * by apply elem_of_nil in Hl.
      * destruct (_ && _).
        -- apply (IH s') with (cur := ""); [simpl; lia|done|done].
        -- apply (IH (String c' s')) with (cur := ""); [simpl; lia|done|done].
    + apply IH; [simpl; lia|].
      rewrite all_app, Hcur. simpl. by rewrite Hc.
Qed.

Lemma splitlines_no_break s l :
  l ∈ splitlines s → all (λ c, negb (is_linebreak c)) l = true.
Proof. by apply splitlines_from_no_break. Qed.

Lemma lstrip_head s c r : lstrip s = String c r → isspace c = false.
Proof.
  induction s as [|c' s IH]; simpl; [done|].
  destruct (isspace c') eqn:Hc'; [done|]. by intros [= <- _].
Qed.

Lemma rstrip_head c s c' r : rstrip (String c s) = String c' r → c' = c.
Proof. simpl. destruct (rstrip s); [destruct (isspace c)|]; by intros [= <-]. Qed.

Lemma strip_head s c r : strip s = String c r → isspace c = false.
Proof.
  unfold strip. destruct (lstrip s) as [|c' s'] eqn:Hl; [done|].
  intros ->%rstrip_head. by apply lstrip_head in Hl.
Qed.

Lemma rstrip_suffix x pre a :
  rstrip x = pre +:+ a → a ≠ "" → all isspace a = false.
Proof.
  revert pre a. induction x as [|c x IH]; intros pre a; simpl.
  - by intros [_ <-]%eq_sym%app_eq_nil.
  - destruct (rstrip x) as [|c' r] eqn:Hr.
    + destruct (isspace c) eqn:Hc.
      * by intros [_ <-]%eq_sym%app_eq_nil.
      * destruct pre as [|c0 pre]; simpl.
        -- intros <- _. simpl. by rewrite Hc.
        -- intros [= _ [_ <-]%eq_sym%app_eq_nil]. done.
    + destruct pre as [|c0 pre]; simpl.
      * intros <- _.
        change (isspace c && all isspace (String c' r) = false).
        rewrite (IH "" (String c' r)); [|done|done].
        apply andb_false_r.
      * intros [= _ Heq]. by apply (IH pre).
Qed.

Lemma lstrip_empty s : all isspace s = true → lstrip s = "".
Proof.
  induction s as [|c s IH]; simpl; [done|].
  intros [-> ?]%andb_true_iff. auto.
Qed.

Lemma all_isspace_lstrip s : all isspace (lstrip s) = all isspace s.
Proof.
  induction s as [|c s IH]; simpl; [done|].
  destruct (isspace c) eqn:Hc; simpl; [done|by rewrite Hc].
Qed.

Lemma rstrip_empty s : rstrip s = "" → all isspace s = true.
Proof.
  induction s as [|c s IH]; simpl; [done|].
  destruct (rstrip s); [|done]. destruct (isspace c); [auto|done].
Qed.

Lemma strip_empty s : strip s = "" → all isspace s = true.
Proof. unfold strip. intros ?%rstrip_empty. by rewrite <-all_isspace_lstrip. Qed.

(** *** The library functions against their description *)

Lemma isspace_whitespace c : isspace c = true ↔ whitespace c.
Proof.
  unfold isspace, code, whitespace, whitespace_chars.
  rewrite !orb_true_iff, !andb_true_iff, !N.leb_le, !N.eqb_eq, !elem_of_cons, elem_of_nil.
  lia.
Qed.

Lemma is_linebreak_linebreak c : is_linebreak c = true ↔ linebreak c.
Proof.
  unfold is_linebreak, code, linebreak, linebreak_chars.
  rewrite !orb_true_iff, !andb_true_iff, !N.leb_le, !N.eqb_eq, !elem_of_cons, elem_of_nil.
  lia.
Qed.

Lemma all_isspace_blank w : all isspace w = true ↔ blank w.
Proof.
  unfold blank. induction w as [|c w IH]; simpl.
  - split; [constructor|done].
  - by rewrite andb_true_iff, Forall_cons, isspace_whitespace, IH.
Qed.

Lemma spaces_spec w : spaces w ↔ w ≠ "" ∧ all isspace w = true.
Proof. unfold spaces. by rewrite all_isspace_blank. Qed.

Lemma to_list_app a b : Text.to_list (a +:+ b) = Text.to_list a ++ Text.to_list b.
Proof. induction a as [|c a IH]; simpl; congruence. Qed.

Lemma unbroken_app a b : unbroken (a +:+ b) ↔ unbroken a ∧ unbroken b.
Proof. unfold unbroken. by rewrite to_list_app, Forall_app. Qed.

Lemma lstrip_spec s : ∃ l, s = l +:+ lstrip s ∧ blank l.
Proof.
  induction s as [|c s (l & Hs & Hl)]; simpl.
  - exists "". split; [done|constructor].
  - destruct (isspace c) eqn:Hc.
    + exists (String c l). simpl. split; [by rewrite <-Hs|].
      constructor; [by apply isspace_whitespace|done].
    + exists "". split; [done|constructor].
Qed.

Lemma rstrip_spec s : ∃ r, s = rstrip s +:+ r ∧ blank r.
Proof.
  induction s as [|c s (r & Hs & Hr)]; simpl.
  - exists "". split; [done|constructor].
  - destruct (rstrip s) as [|c' t].
    + simpl in Hs. destruct (isspace c) eqn:Hc.
      * exists (String c r). simpl. split; [by rewrite <-Hs|].
        constructor; [by apply isspace_whitespace|done].
      * exists r. simpl. split; [by rewrite <-Hs|done].
    + exists r. simpl. split; [by rewrite Hs at 1|done].
Qed.

Lemma rstrip_last s t c : rstrip s = t +:+ String c "" → isspace c = false.
Proof.
  intros H. apply rstrip_suffix in H; [|done]. simpl in H. by rewrite andb_true_r in H.
Qed.

(** [strip] removes the white space at both ends, and nothing else. *)
Lemma strip_trimmed s : trimmed s (strip s).
Proof.
  destruct (lstrip_spec s) as (l & Hs & Hl).
  destruct (rstrip_spec (lstrip s)) as (r & Hx & Hr).
  exists l, r. unfold strip. split_and!; [|done|done| |].
  - by rewrite <-Hx.
  - intros c t' Ht Hc. apply (strip_head s) in Ht.
    apply isspace_whitespace in Hc. congruence.
  - intros t' c Ht Hc. apply rstrip_last in Ht.
    apply isspace_whitespace in Hc. congruence.
Qed.

(** [splitlines] cuts the text at its line boundaries. *)
Lemma splitlines_from_lines_of cur s :
  unbroken cur → lines_of (cur +:+ s) (splitlines_from cur s).
Proof.
  revert cur. induction s as [s IH] using (induction_ltof1 _ Text.length).
  unfold ltof in IH. intros cur Hcur. destruct s as [|c s]; simpl.
  - rewrite app_nil_r. destruct cur; [constructor|by apply lines_of_last].
  - destruct (is_linebreak c) eqn:Hc.
    + apply is_linebreak_linebreak in Hc. destruct s as [|c' s'].
      * apply (lines_of_line cur (String c "") "" []); [done| |constructor].
        right. exists c. split_and!; [done|done|]. by intros [_ [? ?]].
      * destruct ((c =? CR) && (c' =? LF))%N eqn:E.
        -- apply andb_true_iff in E as [->%N.eqb_eq ->%N.eqb_eq].
           apply (lines_of_line cur (String 13%N (String 10%N "")) s'); [done|by left|].
           apply (IH s') with (cur := ""); [simpl; lia|constructor].
        -- apply (lines_of_line cur (String c "") (String c' s')); [done| |].
           ++ right. exists c. split_and!; [done|done|].
              intros [-> (rest' & [= -> _])]. done.
           ++ apply (IH (String c' s')) with (cur := ""); [simpl; lia|constructor].
    + replace (cur +:+ String c s) with ((cur +:+ String c "") +:+ s)
        by (by rewrite app_assoc).
      apply IH; [simpl; lia|]. apply unbroken_app. split; [done|].
      constructor; [|constructor]. intros H%is_linebreak_linebreak. congruence.
Qed.

Lemma splitlines_lines_of text : lines_of text (splitlines text).
Proof. apply (splitlines_from_lines_of "" text). constructor. Qed.

End PyStrFacts.

(** ** Legs *)

Module LegFacts.
Import Converter Spec.

(** The dictionary display [{"home": home, "away": away, "market": market,
    "pick": pick, "odds": odds}] has these five fields and no other. *)
Lemma leg_is_make_leg home away market pick odds :
  leg_is home away market pick odds (make_leg home away market pick odds).
Proof.
  unfold leg_is, make_leg. split_and!; try by simplify_map_eq.
  all: unfold leg_fields; rewrite !dom_insert_L, dom_empty_L; set_solver.
Qed.

End LegFacts.

(** ** The matcher *)

Module RegexFacts.
Import PyStr PyStrFacts Regex Spec.

Lemma consumed_app w rest : consumed (w +:+ rest) rest = w.
Proof.
  unfold consumed. rewrite length_app.
  replace (_ + _ - _) with (Text.length w) by lia. apply substring_app.
Qed.

Lemma runs_spec fl c s rest :
  rest ∈ runs fl c s ↔
  ∃ w, w ≠ "" ∧ all (class_match fl c) w = true ∧ s = w +:+ rest.
Proof.
  revert rest. induction s as [|ch s IH]; intros rest; simpl.
  - split; [by intros ?%elem_of_nil|].
    intros (w & Hw & _ & Heq). symmetry in Heq. by apply app_eq_nil in Heq as [? _].
  - destruct (class_match fl c ch) eqn:Hch.
    + rewrite elem_of_cons, IH. split.
      * intros [->|(w & Hw & Hall & ->)].
        -- exists (String ch ""). simpl. by rewrite Hch.
        -- exists (String ch w). simpl. by rewrite Hch, Hall.
      * intros ([|ch' w] & Hw & Hall & Heq); [done|].
        simpl in Heq, Hall. injection Heq as -> ->.
        apply andb_true_iff in Hall as [_ Hall].
        destruct w as [|ch'' w]; [by left|right].
        by exists (String ch'' w).
    + split; [by intros ?%elem_of_nil|].
      intros ([|ch' w] & Hw & Hall & Heq); [done|].
      simpl in Heq, Hall. injection Heq as -> ->.
      apply andb_true_iff in Hall as [Hall _]. congruence.
Qed.

(** The matcher finds exactly the matches of the pattern. *)
Lemma run_spec fl r caps s caps' rest :
  (caps', rest) ∈ run fl r caps s ↔
  ∃ w, s = w +:+ rest ∧ matches fl r caps w caps'.
Proof.
  revert caps s caps' rest.
  induction r as [c|r1 IH1 r2 IH2|r1 IH1 r2 IH2|r1 IH1|g c|g c|n r1 IH1];
    intros caps s caps' rest; simpl.
  - destruct s as [|ch s].
    + split; [by intros ?%elem_of_nil|].
      by intros (w & Heq & ch & -> & _).
    + destruct (class_match fl c ch) eqn:Hch.
      * rewrite list_elem_of_singleton. split.
        -- intros [= -> ->]. exists (String ch ""). naive_solver.
        -- intros (w & Heq & ch' & -> & Hm & ->). simpl in Heq. by injection Heq as -> ->.
      * split; [by intros ?%elem_of_nil|].
        intros (w & Heq & ch' & -> & Hm & ->). simpl in Heq.
        injection Heq as -> ->. congruence.
  - rewrite list_elem_of_bind. split.
    + intros ([caps1 s1] & H2 & H1). simpl in H2.
      apply IH1 in H1 as (w1 & -> & H1). apply IH2 in H2 as (w2 & -> & H2).
      exists (w1 +:+ w2). rewrite app_assoc. naive_solver.
    + intros (w & -> & w1 & w2 & caps1 & -> & H1 & H2).
      exists (caps1, w2 +:+ rest). simpl. split.
      * apply IH2. eauto.
      * apply IH1. exists w1. by rewrite app_assoc.
  - rewrite elem_of_app, IH1, IH2. naive_solver.
  - rewrite elem_of_app, IH1, list_elem_of_singleton. split.
    + intros [(w & -> & H1)|[= -> ->]]; [by eauto|]. exists "". eauto.
    + intros (w & -> & [H1|[-> ->]]); [left; eauto|by right].
  - rewrite list_elem_of_fmap. split.
    + intros (x & [= -> ->] & Hx).
      assert (x ∈ runs fl c s) as Hx' by (destruct g; by rewrite ?elem_of_reverse in Hx).
      apply runs_spec in Hx' as (w & ? & ? & ->). eauto 10.
    + intros (w & -> & Hw & Hall & ->). exists rest. split; [done|].
      assert (rest ∈ runs fl c (w +:+ rest)) by (apply runs_spec; eauto).
      destruct g; by rewrite ?elem_of_reverse.
  - rewrite list_elem_of_fmap. split.
    + intros (x & [= -> ->] & Hx).
      assert (x = s ∨ x ∈ runs fl c s) as [->|Hx'].
      { destruct g; rewrite ?elem_of_app, ?list_elem_of_singleton, ?elem_of_cons,
          ?elem_of_reverse in Hx; tauto. }
      * exists "". eauto.
      * apply runs_spec in Hx' as (w & ? & ? & ->). eauto 10.
    + intros (w & -> & Hall & ->). exists rest. split; [done|].
      assert (rest = w +:+ rest ∨ rest ∈ runs fl c (w +:+ rest)) as Hx.
      { destruct w as [|ch w]; [by left|right]. apply runs_spec. by exists (String ch w). }
      destruct g; rewrite ?elem_of_app, ?list_elem_of_singleton, ?elem_of_cons,
        ?elem_of_reverse; tauto.
  - rewrite list_elem_of_fmap. split.
    + intros ([caps1 s1] & [= -> ->] & Hx). simpl.
      apply IH1 in Hx as (w & -> & Hx). exists w. rewrite consumed_app. eauto.
    + intros (w & -> & caps1 & H1 & ->). exists (caps1, rest). simpl.
      rewrite consumed_app. split; [done|]. apply IH1. eauto.
Qed.

Lemma head_bind {A B} (f : A → list B) (l : list A) (y : B) :
  head (l ≫= f) = Some y → ∃ x, x ∈ l ∧ head (f x) = Some y.
Proof.
  induction l as [|x l IH]; csimpl; [done|].
  destruct (f x) as [|y' l'] eqn:Hfx; simpl.
  - intros (x' & ? & ?)%IH. exists x'. split; [by right|done].
  - intros [= ->]. exists x. split; [by left|]. by rewrite Hfx.
Qed.

Lemma head_bind_first {A B} (f : A → list B) (l : list A) (y : B) :
  head (l ≫= f) = Some y →
  ∃ l1 x l2, l = l1 ++ x :: l2 ∧ Forall (λ x', f x' = []) l1 ∧ head (f x) = Some y.
Proof.
  induction l as [|x l IH]; csimpl; [done|].
  destruct (f x) as [|y' l'] eqn:Hfx; simpl.
  - intros (l1 & x' & l2 & -> & Hl1 & Hhd)%IH.
    exists (x :: l1), x', l2. split_and!; [done|by constructor|done].
  - intros [= ->]. exists [], x, l. split_and!; [done|constructor|by rewrite Hfx].
Qed.

Lemma runs_shorter fl c s rest :
  rest ∈ runs fl c s → (Text.length rest < Text.length s)%nat.
Proof.
  intros (w & Hw & _ & ->)%runs_spec. rewrite length_app.
  destruct w; [done|simpl; lia].
Qed.

(** [runs] lists the remainders from the longest to the shortest. *)
Lemma runs_order fl c s l1 x l2 y :
  runs fl c s = l1 ++ x :: l2 → y ∈ l2 →
  (Text.length y < Text.length x)%nat.
Proof.
  revert l1. induction s as [|ch s IH]; intros l1; simpl.
  - by destruct l1.
  - destruct (class_match fl c ch); [|by destruct l1].
    destruct l1 as [|z l1]; simpl.
    + intros [= <- <-]. apply runs_shorter.
    + intros [= _ Hruns]. by eapply IH.
Qed.

(** In the matches of a lazy group, one that reads less comes earlier. *)
Lemma lazy_group_order fl n c caps s l1 x l2 y :
  run fl (RGroup n (RPlus false c)) caps s = l1 ++ x :: l2 →
  y ∈ run fl (RGroup n (RPlus false c)) caps s →
  (Text.length x.2 < Text.length y.2)%nat →
  y ∈ l1.
Proof.
  intros Hrun Hy Hlt.
  assert (snd <$> run fl (RGroup n (RPlus false c)) caps s = runs fl c s) as Hsnd.
  { simpl. rewrite <-!list_fmap_compose. by rewrite list_fmap_id. }
  rewrite Hrun in Hy, Hsnd. rewrite fmap_app, fmap_cons in Hsnd.
  apply elem_of_app in Hy as [Hy|[->|Hy]%elem_of_cons]; [done|lia|].
  pose proof (runs_order _ _ _ _ _ _ y.2 (eq_sym Hsnd)) as Hord.
  specialize (Hord (list_elem_of_fmap_2 snd _ _ Hy)). lia.
Qed.

Lemma search_none fl r s pre t :
  search fl r s = None → s = pre +:+ t → run fl r [] t = [].
Proof.
  revert pre. induction s as [|c s IH]; intros pre; simpl.
  - destruct (run fl r [] "") eqn:Hrun; [|done].
    intros _ Heq. symmetry in Heq. by apply app_eq_nil in Heq as [_ ->].
  - destruct (run fl r [] (String c s)) eqn:Hrun; [|done].
    intros Hs Heq. destruct pre as [|c' pre]; simpl in Heq.
    + by subst t.
    + injection Heq as -> ->. by eapply IH.
Qed.

Lemma search_some fl r s caps :
  search fl r s = Some caps →
  ∃ pre t rest, s = pre +:+ t ∧ head (run fl r [] t) = Some (caps, rest).
Proof.
  induction s as [|c s IH]; simpl.
  - destruct (run fl r [] "") as [|[caps' rest] l] eqn:Hrun; [done|].
    intros [= <-]. exists "", "", rest. by rewrite Hrun.
  - destruct (run fl r [] (String c s)) as [|[caps' rest] l] eqn:Hrun.
    + intros (pre & t & rest & -> & Hhd)%IH. by exists (String c pre), t, rest.
    + intros [= <-]. exists "", (String c s), rest. by rewrite Hrun.
Qed.

(** When a match at a later position gives one at the start, [search]
    returns the preferred match at the start. *)
Lemma search_at_start fl r s caps :
  (∀ pre t, s = pre +:+ t → run fl r [] t ≠ [] → run fl r [] s ≠ []) →
  search fl r s = Some caps →
  ∃ rest, head (run fl r [] s) = Some (caps, rest).
Proof.
  intros Hleft Hs. destruct (run fl r [] s) as [|[caps' rest] l] eqn:Hrun.
  - apply search_some in Hs as (pre & t & rest & -> & Hhd).
    destruct (Hleft pre t eq_refl); [|done]. by destruct (run fl r [] t).
  - destruct s; simpl in Hs; rewrite Hrun in Hs; injection Hs as <-; by exists rest.
Qed.

(** The last, greedy [.+] of a pattern takes all of a text in which every
    character is in the class. *)
Lemma head_runs_greedy fl c s :
  all (class_match fl c) s = true → s ≠ "" →
  head (reverse (runs fl c s)) = Some "".
Proof.
  induction s as [|ch s IH]; [done|]. simpl.
  intros [Hch Hall]%andb_true_iff _. rewrite Hch, reverse_cons.
  destruct s as [|ch' s]; [done|].
  specialize (IH Hall ltac:(done)).
  destruct (reverse (runs fl c (String ch' s))); [done|]. by simplify_eq/=.
Qed.

End RegexFacts.

(** ** The text path *)

Module TextPath.
Import PyStr PyStrFacts Regex RegexFacts Converter Spec LegFacts.

Ltac solve_lit :=
  unfold class_match, literal_match, ignorecase_extra, PyFloat.lower, PyStr.code, PyStr.chr;
  cbn;
  match goal with
  | |- context [((65 <=? ?ch) && (?ch <=? 90))%N] =>
      destruct ((65 <=? ch) && (ch <=? 90))%N eqn:E;
      [apply andb_true_iff in E as [?%N.leb_le ?%N.leb_le]
      |apply andb_false_iff in E as [?%N.leb_gt|?%N.leb_gt]]
  end;
  rewrite ?orb_true_iff, ?bool_decide_eq_true, ?N.eqb_eq, ?elem_of_cons, ?elem_of_nil;
  lia.

Lemma lit_v ch : class_match flags_I (CLit "v") ch = true ↔ ch = "v"%char ∨ ch = "V"%char.
Proof. solve_lit. Qed.

Lemma lit_s ch :
  class_match flags_I (CLit "s") ch = true ↔ ch = "s"%char ∨ ch = "S"%char ∨ ch = "ſ"%char.
Proof. solve_lit. Qed.

Lemma lit_dot ch : class_match flags_I (CLit ".") ch = true ↔ ch = "."%char.
Proof. solve_lit. Qed.

(** What the first pattern matches after its first group. *)
Lemma matches_tail caps w caps' :
  matches flags_I versus_tail caps w caps' ↔
  ∃ w1 vw w2 a,
    w = w1 +:+ vw +:+ w2 +:+ a ∧
    spaces w1 ∧ versus_word vw ∧ spaces w2 ∧
    a ≠ "" ∧ no_newline a ∧ caps' = (2, a) :: caps.
Proof.
  setoid_rewrite spaces_spec.
  unfold versus_tail, versus_word, no_newline. cbn [matches]. split.
  - intros (w1 & ? & ? & -> & (Hw1 & Hw1s & ->) & ? & ? & ? & -> & (ch & -> & Hv & ->) &
            o & ? & ? & -> & Ho & w2 & a & ? & -> & (Hw2 & Hw2s & ->) &
            ? & (Ha & Han & ->) & ->).
    apply lit_v in Hv.
    exists w1, (String ch o), w2, a.
    destruct Hv as [-> | ->];
      destruct Ho as [[(ch' & -> & [-> | [-> | ->]]%lit_s & ->)
                      |(ch' & -> & ->%lit_dot & ->)]|[-> ->]];
      simpl; split_and!; try done; rewrite !elem_of_cons; tauto.
  - intros (w1 & vw & w2 & a & -> & [Hw1 Hw1s] & Hvw & [Hw2 Hw2s] & Ha & Han & ->).
    assert (∃ ch o, vw = String ch o ∧ class_match flags_I (CLit "v") ch = true ∧
              ((∃ ch', o = String ch' "" ∧ class_match flags_I (CLit "s") ch' = true)
               ∨ (∃ ch', o = String ch' "" ∧ class_match flags_I (CLit ".") ch' = true)
               ∨ o = "")) as (ch & o & -> & Hv & Ho).
    { rewrite !elem_of_cons in Hvw.
      destruct Hvw as [->|[->|[->|[->|[->|[->|[->|[->|[->|[->|[]%elem_of_nil]]]]]]]]]];
        eexists _, _; (split; [done|]); (split; [reflexivity|]);
        first [ by right; right
              | left; eexists; split; [reflexivity|reflexivity]
              | right; left; eexists; split; [reflexivity|reflexivity] ]. }
    exists w1, (String ch o +:+ w2 +:+ a), caps. split; [done|]. split; [done|].
    exists (String ch ""), (o +:+ w2 +:+ a), caps. split; [done|].
      split; [by eauto|].
    exists o, (w2 +:+ a), caps. split; [done|]. split.
    { destruct Ho as [(ch' & -> & ?)|[(ch' & -> & ?)| ->]];
        [left; left|left; right|right]; eauto. }
    exists w2, a, caps. split; [done|]. split; [done|]. eauto.
Qed.

(** What the first pattern matches. *)
Lemma matches_versus caps w caps' :
  matches flags_I versus_re caps w caps' ↔
  ∃ h w1 vw w2 a,
    w = h +:+ w1 +:+ vw +:+ w2 +:+ a ∧
    h ≠ "" ∧ no_newline h ∧ spaces w1 ∧ versus_word vw ∧ spaces w2 ∧
    a ≠ "" ∧ no_newline a ∧ caps' = (2, a) :: (1, h) :: caps.
Proof.
  change versus_re with (RSeq (RGroup 1 (RPlus false CAny)) versus_tail).
  cbn [matches]. split.
  - intros (h & w' & ? & -> & (? & (Hh & Hhn & ->) & ->) & Ht).
    apply matches_tail in Ht as (w1 & vw & w2 & a & -> & ? & ? & ? & ? & ? & ->).
    by exists h, w1, vw, w2, a.
  - intros (h & w1 & vw & w2 & a & -> & Hh & Hhn & Hw1 & Hvw & Hw2 & Ha & Han & ->).
    exists h, (w1 +:+ vw +:+ w2 +:+ a), ((1, h) :: caps). split; [done|].
    split; [by eauto|]. apply matches_tail. by exists w1, vw, w2, a.
Qed.

(** Whatever the second pattern matches, the first one matches too. *)
Lemma matches_versus2 caps w caps' :
  matches flags_I versus_re2 caps w caps' → matches flags_I versus_re caps w caps'.
Proof.
  unfold versus_re, versus_re2. simpl.
  intros (h & ? & ? & -> & H1 & w1 & ? & ? & -> & H2 & ? & ? & ? & -> & H3 &
          o & ? & ? & -> & H4 & H5).
  do 3 eexists. split; [done|]. split; [exact H1|].
  do 3 eexists. split; [done|]. split; [exact H2|].
  do 3 eexists. split; [done|]. split; [exact H3|].
  do 3 eexists. split; [done|]. split; [left; left; exact H4|exact H5].
Qed.

Lemma no_newline_app a b : no_newline (a +:+ b) ↔ no_newline a ∧ no_newline b.
Proof. unfold no_newline. by rewrite all_app, andb_true_iff. Qed.

Lemma has_versus_matches line :
  no_newline line → has_versus line →
  ∃ caps', matches flags_I versus_re [] line caps'.
Proof.
  intros Hn (h & a & sep & -> & Hh & Ha & w1 & vw & w2 & -> & Hw1 & Hvw & Hw2).
  apply no_newline_app in Hn as [Hhn Hn].
  rewrite !app_assoc in Hn. do 3 apply no_newline_app in Hn as [_ Hn].
  eexists. apply matches_versus. exists h, w1, vw, w2, a.
  by rewrite !app_assoc.
Qed.

(** A match of the first pattern further right gives one at the start of
    the line. *)
Lemma versus_extends_left line pre t :
  no_newline line → line = pre +:+ t →
  run flags_I versus_re [] t ≠ [] → run flags_I versus_re [] line ≠ [].
Proof.
  intros Hn -> Hrun.
  destruct (run flags_I versus_re [] t) as [|[caps rest] l] eqn:Ht; [done|].
  assert ((caps, rest) ∈ run flags_I versus_re [] t) as Hm by (rewrite Ht; left).
  apply run_spec in Hm as (w & -> & Hm).
  apply matches_versus in Hm as (h & w1 & vw & w2 & a & -> & Hh & Hhn & Hw1 & Hvw & Hw2 & Ha & Han & ->).
  assert (((2, a) :: (1, pre +:+ h) :: [], rest)
          ∈ run flags_I versus_re [] (pre +:+ (h +:+ w1 +:+ vw +:+ w2 +:+ a) +:+ rest)) as Hin.
  { apply run_spec. exists ((pre +:+ h) +:+ w1 +:+ vw +:+ w2 +:+ a).
    split; [by rewrite !app_assoc|].
    apply matches_versus. exists (pre +:+ h), w1, vw, w2, a.
    split_and!; try done.
    - intros [_ ->]%app_eq_nil. done.
    - apply no_newline_app in Hn as [Hpre _]. by apply no_newline_app. }
  intros Hnil. rewrite Hnil in Hin. by apply elem_of_nil in Hin.
Qed.

(** What the loop body finds on a line: the two captures around the first
    separator, or nothing when the line has no separator. *)
Lemma versus_match_spec line :
  no_newline line →
  match versus_match line with
  | Some m => first_split line (group m 1) (group m 2)
  | None => ¬ has_versus line
  end.
Proof.
  intros Hn. unfold versus_match.
  destruct (search flags_I versus_re line) as [m|] eqn:Hs.
  - apply search_at_start in Hs as [rest Hhd];
      [|intros pre t; by apply versus_extends_left].
    change versus_re with (RSeq (RGroup 1 (RPlus false CAny)) versus_tail) in Hhd.
    set (G1 := RGroup 1 (RPlus false CAny)) in Hhd.
    change (run flags_I (RSeq G1 versus_tail) [] line)
      with (x ← run flags_I G1 [] line; run flags_I versus_tail x.1 x.2) in Hhd.
    apply head_bind_first in Hhd as (l1 & [c1 s1] & l2 & Hl & Hl1 & Hhd).
    assert ((c1, s1) ∈ run flags_I G1 [] line) as Hin1
      by (rewrite Hl; apply elem_of_app; right; left).
    apply run_spec in Hin1 as (h & Hline & c & (Hh & Hhn & ->) & ->).
    assert (∀ h' a', split_at_versus line h' a' →
              (Text.length h ≤ Text.length h')%nat) as Hmin.
    { intros h' a' (sep' & Hline' & Hh' & Ha' & w1' & vw' & w2' & -> & Hw1' & Hvw' & Hw2').
      destruct (decide (Text.length h ≤ Text.length h')%nat) as [|Hlt]; [done|exfalso].
      pose proof Hn as Hn'. rewrite Hline' in Hn'.
      apply no_newline_app in Hn' as [Hhn' Hn'].
      rewrite !app_assoc in Hn'. do 3 apply no_newline_app in Hn' as [_ Hn'].
      assert (([(1, h')], (w1' +:+ vw' +:+ w2') +:+ a') ∈ run flags_I G1 [] line) as Hx'.
      { apply run_spec. exists h'. split; [done|]. exists []. by split_and!. }
      apply (lazy_group_order _ _ _ _ _ _ _ _ _ Hl) in Hx'.
      - rewrite Forall_forall in Hl1. specialize (Hl1 _ Hx'). cbn [fst snd] in Hl1.
        assert (((2, a') :: [(1, h')], "")
                ∈ run flags_I versus_tail [(1, h')] ((w1' +:+ vw' +:+ w2') +:+ a')) as Hin.
        { apply run_spec. eexists. split; [by rewrite app_nil_r|].
          apply matches_tail. exists w1', vw', w2', a'. by rewrite !app_assoc. }
        rewrite Hl1 in Hin. by apply elem_of_nil in Hin.
      - simpl. apply (f_equal Text.length) in Hline, Hline'.
        rewrite !length_app in *. lia. }
    subst line. simpl in Hhd. unfold versus_tail in Hhd. simpl in Hhd.
    apply head_bind in Hhd as ([c2 s2] & H2 & Hhd). simpl in Hhd.
    apply head_bind in Hhd as ([c3 s3] & H3 & Hhd). simpl in Hhd.
    apply head_bind in Hhd as ([c4 s4] & H4 & Hhd). simpl in Hhd.
    apply head_bind in Hhd as ([c5 s5] & H5 & Hhd). simpl in Hhd.
    apply (run_spec flags_I (RPlus true CSpace)) in H2 as (w1 & -> & Hw1 & Hw1s & ->).
    apply (run_spec flags_I (RChar (CLit "v"))) in H3 as (? & -> & ch & -> & Hv & ->).
    apply (run_spec flags_I (ROpt (RAlt (RChar (CLit "s")) (RChar (CLit "."))))) in H4
      as (o & -> & Ho).
    apply (run_spec flags_I (RPlus true CSpace)) in H5 as (w2 & -> & Hw2 & Hw2s & ->).
    rewrite !no_newline_app in Hn. destruct Hn as (_ & _ & _ & _ & _ & Hn5).
    destruct s5 as [|ch5 s5]; [done|].
    pose proof (head_runs_greedy flags_I CAny _ Hn5 ltac:(done)) as Hg.
    pose proof (consumed_app (String ch5 s5) "") as Hc. rewrite app_nil_r in Hc.
    destruct (reverse (runs flags_I CAny (String ch5 s5))) as [|x l']; [done|].
    injection Hg as ->. injection Hhd as <- <-. rewrite Hc.
    assert (c4 = [(1, h)] ∧ versus_word (String ch o)) as [-> Hvw].
    { apply lit_v in Hv. unfold versus_word. cbn [matches] in Ho.
      destruct Hv as [-> | ->];
        destruct Ho as [[(ch' & -> & [-> | [-> | ->]]%lit_s & ->)
                        |(ch' & -> & ->%lit_dot & ->)]|[-> ->]];
        (split; [done|]); rewrite !elem_of_cons; tauto. }
    simpl group. split; [|exact Hmin].
    exists (w1 +:+ String ch o +:+ w2). rewrite !app_assoc. simpl.
    split_and!; try done.
    exists w1, (String ch o), w2. split_and!; [done| |done|]; by apply spaces_spec.
  - assert (search flags_I versus_re2 line = None) as ->.
    { destruct (search flags_I versus_re2 line) as [m|] eqn:Hs2; [exfalso|done].
      apply search_some in Hs2 as (pre & t & rest & -> & Hhd).
      assert ((m, rest) ∈ run flags_I versus_re2 [] t) as Hm.
      { destruct (run flags_I versus_re2 [] t); simplify_eq/=. left. }
      apply run_spec in Hm as (w & -> & Hm%matches_versus2).
      assert ((m, rest) ∈ run flags_I versus_re [] (w +:+ rest)) as Hin
        by (apply run_spec; eauto).
      rewrite (search_none _ _ _ _ _ Hs eq_refl) in Hin. by apply elem_of_nil in Hin. }
    intros (caps' & Hm)%has_versus_matches; [|done].
    assert ((caps', "") ∈ run flags_I versus_re [] line) as Hin.
    { apply run_spec. exists line. by rewrite app_nil_r. }
    rewrite (search_none _ _ _ "" _ Hs eq_refl) in Hin. by apply elem_of_nil in Hin.
Qed.

Lemma unbroken_no_newline l :
  all (λ c, negb (is_linebreak c)) l = true → no_newline (strip l).
Proof.
  intros Hl. apply all_strip. apply (all_impl (λ c, negb (is_linebreak c))); [|done].
  intros c Hc. unfold class_match. simpl.
  destruct (N.eqb_spec c LF) as [->|]; [done|done].
Qed.

Lemma stripped_lines_no_newline text line :
  line ∈ stripped_lines text → no_newline line.
Proof.
  unfold stripped_lines. intros (l & -> & [_ Hl]%list_elem_of_filter)%list_elem_of_fmap.
  by apply unbroken_no_newline, (splitlines_no_break text).
Qed.

Lemma stripped_lines_nonempty text line :
  line ∈ stripped_lines text → line ≠ "".
Proof.
  unfold stripped_lines. intros (l & -> & [Hl _]%list_elem_of_filter)%list_elem_of_fmap.
  by destruct (strip l).
Qed.

Lemma no_versus_empty : ¬ has_versus "".
Proof. intros (h & a & sep & Heq & Hh & _). symmetry in Heq. by apply app_eq_nil in Heq as [? _]. Qed.

(** The loop over the lines against the description: a line that trims to
    the empty string is dropped by the filter, and holds no separator. *)
Lemma legs_of_raw_lines raws :
  Forall (λ l, all (λ c, negb (is_linebreak c)) l = true) raws →
  extracted raws
    ((strip <$> filter (λ l, PyStr.truthy (strip l) = true) raws) ≫= legs_of_line).
Proof.
  induction 1 as [|raw raws Hraw _ IH]; [constructor|].
  rewrite filter_cons. destruct (decide (PyStr.truthy (strip raw) = true)) as [Ht|Ht].
  - csimpl. unfold legs_of_line at 1.
    pose proof (versus_match_spec (strip raw) (unbroken_no_newline raw Hraw)) as Hm.
    destruct (versus_match (strip raw)) as [m|]; simpl.
    + eapply extracted_leg;
        [apply strip_trimmed|exact Hm|apply strip_trimmed|apply strip_trimmed
        |apply leg_is_make_leg|exact IH].
    + eapply extracted_skip; [apply strip_trimmed|exact Hm|exact IH].
  - eapply extracted_skip; [apply strip_trimmed| |exact IH].
    destruct (strip raw); [apply no_versus_empty|done].
Qed.

(** C3. The text extractor cuts the text into its lines and reads each
    line without the white space at its ends. In line order it returns
    one leg for each line that holds a versus separator ([v], [vs] or [v.]
    in any letter case, between white space, with a non-empty name on each
    side): home and away are the names around the first separator of the
    line, without the white space at their ends; the market is "Unknown",
    the pick is empty and the odds are absent. Lines without a separator
    add nothing, and when no line adds a leg the result is [None], not an
    empty list. The one-line text [A vs B] gives the single leg with home
    [A] and away [B]; a text of four lines, one of them empty and one
    without a separator, gives the legs of the other two in their order. *)
Theorem text_extractor_legs :
  (∀ text, ∃ raws legs,
      lines_of text raws ∧ extracted raws legs ∧
      parse_slip_from_text text = match legs with [] => None | _ => Some legs end)
  ∧ (∃ leg, parse_slip_from_text "A vs B" = Some [leg]
       ∧ leg !! "home" = Some (VStr "A") ∧ leg !! "away" = Some (VStr "B")
       ∧ leg !! "market" = Some (VStr "Unknown") ∧ leg !! "pick" = Some (VStr "")
       ∧ leg !! "odds" = Some VNone ∧ dom leg = leg_fields)
  ∧ (∃ leg1 leg2,
       parse_slip_from_text
         ("  Home  VS Away " +:+ String CR (String LF "") +:+ String LF ""
          +:+ "nothing" +:+ String LF "" +:+ "C v. D e")
       = Some [leg1; leg2]
       ∧ leg1 !! "home" = Some (VStr "Home") ∧ leg1 !! "away" = Some (VStr "Away")
       ∧ leg2 !! "home" = Some (VStr "C") ∧ leg2 !! "away" = Some (VStr "D e")).
Proof.
  split_and!.
  - intros text. exists (splitlines text), (stripped_lines text ≫= legs_of_line).
    split_and!; [apply splitlines_lines_of| |done].
    apply legs_of_raw_lines, Forall_forall. intros l. apply splitlines_no_break.
  - eexists. split_and!; reflexivity.
  - eexists _, _. split_and!; reflexivity.
Qed.

End TextPath.

(** ** The payload path *)

Module PayloadPath.
Import Regex RegexFacts Converter Spec LegFacts.

Lemma py_or_chain2 a b d : py_or (py_or a b) d = first_truthy [a; b] d.
Proof. unfold py_or. simpl. destruct (truthy a) eqn:Ha; [by rewrite Ha|done]. Qed.

Lemma py_or_chain3 a b c d : py_or (py_or (py_or a b) c) d = first_truthy [a; b; c] d.
Proof.
  unfold py_or. simpl. destruct (truthy a) eqn:Ha; [by rewrite !Ha|].
  destruct (truthy b) eqn:Hb; [by rewrite Hb|done].
Qed.

(** The leg of an item: per field, the first truthy alias in priority
    order. *)
Lemma leg_of_item_aliases (it : dict) :
  leg_of_item (VDict it) =
  Ok (make_leg
        (first_truthy [get "home" it; get "team1" it; get "homeName" it] (VStr ""))
        (first_truthy [get "away" it; get "team2" it; get "awayName" it] (VStr ""))
        (first_truthy [get "market" it; get "marketName" it; get "type" it] (VStr ""))
        (first_truthy [get "pick" it; get "selection" it] (VStr ""))
        (coerce_odds (first_truthy [get "odds" it; get "price" it; get "odd" it] VNone))).
Proof. unfold leg_of_item. by rewrite !py_or_chain3, py_or_chain2. Qed.

(** C4. For the payload [{"bets":[{"team1":"X","team2":"Y","price":"1.5"}]}]
    the normalizer returns exactly one leg, whose fields are home "X", away
    "Y", market "", pick "" and odds the float that [float("1.5")] is, whose
    value is 3/2, and no other. For every item the leg has under each of
    its five fields the first truthy alias, in the order home, team1,
    homeName; away, team2, awayName; market, marketName, type; pick,
    selection; odds, price, odd. *)
Theorem normalizer_bets_example :
  (∃ leg f n d,
      parse_slip_from_payload bets_payload = Ok (Some [leg])
      ∧ leg !! "home" = Some (VStr "X")
      ∧ leg !! "away" = Some (VStr "Y")
      ∧ leg !! "market" = Some (VStr "")
      ∧ leg !! "pick" = Some (VStr "")
      ∧ leg !! "odds" = Some (VFloat f)
      ∧ dom leg = leg_fields
      ∧ PyFloat.of_str "1.5" = Ok f
      ∧ PyFloat.to_ratio f = Some (n, d) ∧ (2 * n = 3 * d)%Z)
  ∧ (∀ it : dict, ∃ leg,
      leg_of_item (VDict it) = Ok leg
      ∧ leg !! "home"
        = Some (first_truthy [get "home" it; get "team1" it; get "homeName" it] (VStr ""))
      ∧ leg !! "away"
        = Some (first_truthy [get "away" it; get "team2" it; get "awayName" it] (VStr ""))
      ∧ leg !! "market"
        = Some (first_truthy [get "market" it; get "marketName" it; get "type" it] (VStr ""))
      ∧ leg !! "pick"
        = Some (first_truthy [get "pick" it; get "selection" it] (VStr ""))
      ∧ leg !! "odds"
        = Some (coerce_odds
                  (first_truthy [get "odds" it; get "price" it; get "odd" it] VNone))
      ∧ dom leg = leg_fields).
Proof.
  split.
  - exists (make_leg (VStr "X") (VStr "Y") (VStr "") (VStr "")
              (VFloat (S754_finite false 6755399441055744 (-52)))),
      (S754_finite false 6755399441055744 (-52)), 6755399441055744%Z, 4503599627370496%Z.
    split_and!; reflexivity.
  - intros it. eexists. split; [apply leg_of_item_aliases|].
    unfold make_leg. split_and!; try by simplify_map_eq.
    all: unfold leg_fields; rewrite !dom_insert_L, dom_empty_L; set_solver.
Qed.

(** *** The scan of the candidate keys *)

Lemma scan_keys_skip (d : dict) (skipped rest : list string) :
  Forall (λ k, nonempty_list (get k d) = false) skipped →
  scan_keys (skipped ++ rest) d = scan_keys rest d.
Proof.
  induction 1 as [|k skipped Hk _ IH]; simpl; [done|].
  destruct (get k d) as [| | | | |[|it items]|]; simpl in *; try done;
    by destruct (negb _).
Qed.

Lemma scan_keys_hit (d : dict) (key : string) (rest : list string) (items : list value) :
  get key d = VList items → items ≠ [] →
  scan_keys (key :: rest) d = rbind (legs_of_items items) (λ legs, Ok (Some legs)).
Proof.
  intros Hget Hne. simpl. rewrite Hget. destruct items as [|it items]; [done|].
  simpl. destruct (leg_of_item it); simpl; [|done]. by destruct (legs_of_items items).
Qed.

Lemma scan_keys_none (d : dict) (keys : list string) :
  Forall (λ k, nonempty_list (get k d) = false) keys → scan_keys keys d = Ok None.
Proof. intros H. by rewrite <-(app_nil_r keys), scan_keys_skip. Qed.

Lemma get_missing (d : dict) k : d !! k = None → get k d = VNone.
Proof. unfold get. by intros ->. Qed.

Lemma get_present (d : dict) k v : d !! k = Some v → get k d = v.
Proof. unfold get. by intros ->. Qed.

(** The payload of C1: the first candidate key holds an empty list, and
    the legs of the later key [bets] are returned. *)
Lemma empty_booking_falls_through :
  empty_booking_payload !! "booking" = Some (VList [])
  ∧ parse_slip_from_payload (VDict empty_booking_payload) =
      Ok (Some [make_leg (VStr "X") (VStr "Y") (VStr "") (VStr "")
                         (VFloat (S754_finite false 6755399441055744 (-52)))]).
Proof. split; reflexivity. Qed.

Lemma legs_of_items_Ok (items : list value) (legs : list dict) :
  legs_of_items items = Ok legs →
  Forall2 (λ it leg, leg_of_item it = Ok leg) items legs.
Proof.
  revert legs. induction items as [|it items IH]; intros legs; simpl.
  - intros [= <-]. constructor.
  - destruct (leg_of_item it) as [leg|] eqn:Hleg; simpl; [|done].
    destruct (legs_of_items items) as [legs'|]; simpl; [|done].
    intros [= <-]. constructor; auto.
Qed.

Lemma legs_of_items_Raise (items : list value) (e : exn) :
  legs_of_items items = Raise e →
  e = AttributeError ∧ Exists (λ it, is_dict it = false) items.
Proof.
  induction items as [|it items IH]; simpl; [done|].
  destruct (leg_of_item it) as [leg|e'] eqn:Hleg; simpl.
  - destruct (legs_of_items items) as [legs'|]; simpl; [done|].
    intros [= <-]. destruct (IH eq_refl) as [-> ?]. split; [done|by right].
  - intros [= <-]. destruct it; simplify_eq/=; (split; [done|by left]).
Qed.

Lemma legs_of_items_objects (items : list value) :
  Forall (λ it, is_dict it = true) items → ∃ legs, legs_of_items items = Ok legs.
Proof.
  induction 1 as [|it items Hit _ [legs IH]]; simpl; [by eexists|].
  destruct it; try done. rewrite leg_of_item_aliases, IH. by eexists.
Qed.

Lemma legs_of_items_other (items : list value) :
  Exists (λ it, is_dict it = false) items → legs_of_items items = Raise AttributeError.
Proof.
  induction 1 as [it items Hit|it items _ IH]; simpl.
  - by destruct it.
  - rewrite IH. by destruct it.
Qed.

(** C1, amended. When the first candidate key that is present holds an
    empty list, the normalizer goes on with the candidate keys after it:
    its result is that of the scan of the remaining keys. It reports "not
    found" when no remaining key holds a non-empty list. Otherwise the
    first remaining key that holds a non-empty list decides: when its
    items are all objects, the legs built from them are returned, one per
    item in order; when one of them is no object, the normalizer raises
    [AttributeError]. *)
Theorem normalizer_skips_empty_list (d : dict) (pre post : list string) (key : string) :
  candidate_keys = pre ++ key :: post →
  (∀ k, k ∈ pre → d !! k = None) →
  d !! key = Some (VList []) →
  parse_slip_from_payload (VDict d) = scan_keys post d
  ∧ (∀ skipped key' rest items,
        post = skipped ++ key' :: rest →
        Forall (λ k, nonempty_list (get k d) = false) skipped →
        get key' d = VList items → items ≠ [] →
        (Forall (λ it, is_dict it = true) items →
           ∃ legs, parse_slip_from_payload (VDict d) = Ok (Some legs)
                   ∧ Forall2 (λ it leg, leg_of_item it = Ok leg) items legs)
        ∧ (Exists (λ it, is_dict it = false) items →
           parse_slip_from_payload (VDict d) = Raise AttributeError))
  ∧ (Forall (λ k, nonempty_list (get k d) = false) post →
     parse_slip_from_payload (VDict d) = Ok None).
Proof.
  intros Hkeys Hpre Hkey.
  assert (parse_slip_from_payload (VDict d) = scan_keys post d) as Hscan.
  { unfold parse_slip_from_payload. rewrite Hkeys.
    rewrite scan_keys_skip.
    - simpl. by rewrite (get_present _ _ _ Hkey).
    - apply Forall_forall. intros k Hk. by rewrite (get_missing _ _ (Hpre k Hk)). }
  rewrite Hscan. split_and!; [done| |apply scan_keys_none].
  intros skipped key' rest items -> Hskipped Hget Hne.
  rewrite scan_keys_skip by done. rewrite (scan_keys_hit d key' rest items Hget Hne).
  split.
  - intros [legs Hlegs]%legs_of_items_objects. exists legs. rewrite Hlegs.
    split; [done|]. by apply legs_of_items_Ok.
  - intros Hother%legs_of_items_other. by rewrite Hother.
Qed.

Lemma normalizer_skips_empty_list_witness :
  ∃ legs, parse_slip_from_payload (VDict empty_booking_payload) = Ok (Some legs)
          ∧ Forall2 (λ it leg, leg_of_item it = Ok leg) [VDict bets_item] legs.
Proof.
  assert (∀ k : string, k ∈ @nil string → empty_booking_payload !! k = None) as Hpre
    by (by intros k ?%elem_of_nil).
  apply (proj1 (proj2 (normalizer_skips_empty_list empty_booking_payload []
           ["slip"; "bets"; "items"; "data"] "booking" eq_refl Hpre eq_refl))
           ["slip"] "bets" ["items"; "data"] [VDict bets_item] eq_refl).
  - by repeat constructor.
  - reflexivity.
  - discriminate.
  - by repeat constructor.
Defined.

(** *** The odds *)

(** The item of C10: the first odds alias present holds 0, and the odds of
    the leg are those of the next alias. *)
Lemma zero_odds_falls_to_price :
  zero_odds_item !! "odds" = Some (VInt 0)
  ∧ truthy (VInt 0) = false
  ∧ ∃ leg, leg_of_item (VDict zero_odds_item) = Ok leg
           ∧ leg !! "odds" = Some (VFloat (S754_finite false 4503599627370496 (-51))).
Proof. split_and!; [done|done|]. eexists. split; reflexivity. Qed.

Lemma make_leg_odds home away market pick odds :
  make_leg home away market pick odds !! "odds" = Some odds.
Proof. unfold make_leg. by simplify_map_eq. Qed.

Lemma coerce_odds_cases v :
  coerce_odds v = VNone ∨ ∃ f, py_float v = Ok f ∧ coerce_odds v = VFloat f.
Proof.
  unfold coerce_odds. destruct (truthy v); [|by left].
  destruct (py_float v) as [f|e]; [right; by exists f|by left].
Qed.

(** C10, amended. When every odds alias of an item (odds, price, odd) is
    missing or holds a falsy value, the leg is emitted with odds absent.
    The coercion never raises: it gives the float or, when [float] raises,
    absent odds. An item whose only odds alias holds 0 gives the same leg
    as an item without odds. *)
Theorem falsy_odds_absent :
  (∀ it : dict,
      truthy (get "odds" it) = false →
      truthy (get "price" it) = false →
      truthy (get "odd" it) = false →
      ∃ leg, leg_of_item (VDict it) = Ok leg ∧ leg !! "odds" = Some VNone)
  ∧ (∀ v, coerce_odds v = VNone ∨ ∃ f, py_float v = Ok f ∧ coerce_odds v = VFloat f)
  ∧ (∀ v e, py_float v = Raise e → coerce_odds v = VNone)
  ∧ leg_of_item (VDict {[ "odds" := VInt 0 ]}) = leg_of_item (VDict ∅).
Proof.
  split_and!.
  - intros it H1 H2 H3. eexists. split; [apply leg_of_item_aliases|].
    rewrite make_leg_odds. simpl. by rewrite H1, H2, H3.
  - apply coerce_odds_cases.
  - intros v e He. unfold coerce_odds. rewrite He. by destruct (truthy v).
  - reflexivity.
Qed.

Lemma falsy_odds_absent_witness :
  ∃ leg, leg_of_item (VDict {[ "odds" := VInt 0 ]}) = Ok leg ∧ leg !! "odds" = Some VNone.
Proof.
  apply (proj1 falsy_odds_absent {[ "odds" := VInt 0 ]}); reflexivity.
Defined.

(** *** The locator *)

Lemma extract_with_first_parsed json_loads pats html :
  extract_with json_loads pats html = first_parsed json_loads pats html.
Proof.
  induction pats as [|pat pats IH]; simpl; [done|].
  destruct (search flags_S pat html) as [m|]; [|done].
  unfold reparse. by destruct (json_loads (group m 1)).
Qed.

(** C2. The second attempt of the locator gives [json.loads] the very text
    of the first attempt, so it fails whenever the first one failed: the
    locator is the one without a second attempt. On the page that assigns
    [{"bets":[{"home":"A","away":"B"},]}] to [window.__DATA__], the result
    is decided by [json.loads] on that text and on the prefix that the
    last pattern captures; nothing is removed from either. *)
Theorem locator_second_attempt_same (json_loads : string → result value) :
  (∀ txt, reparse json_loads txt = json_loads txt)
  ∧ (∀ html, extract_json_payload_from_html json_loads html =
             first_parsed json_loads patterns html)
  ∧ extract_json_payload_from_html json_loads trailing_comma_page =
      match json_loads trailing_comma_object with
      | Ok payload => Some payload
      | Raise _ =>
          match json_loads trailing_comma_prefix with
          | Ok payload => Some payload
          | Raise _ => None
          end
      end.
Proof.
  split_and!; [done|intros; apply extract_with_first_parsed|].
  unfold extract_json_payload_from_html. rewrite extract_with_first_parsed.
  reflexivity.
Qed.

End PayloadPath.

(** ** The market translator *)

Module Translator.
Import Converter Spec.

Lemma map_markets_hashable (legs : list dict) (from_plat to_plat : string) :
  Forall (λ leg, hashable (get_default "market" (VStr "") leg) = true) legs →
  map_markets legs from_plat to_plat = Ok (translated_leg from_plat <$> legs).
Proof.
  induction 1 as [|leg legs Hleg _ IH]; simpl; [done|].
  rewrite IH. unfold map_market, MARKET_MAP_get. by rewrite Hleg.
Qed.

(** On legs whose market can be hashed, a string in particular, the
    translator returns as many legs in the same order; each leg keeps
    every field but [market], which becomes the entry of the table, or
    stays what it was when the table has no entry. *)
Lemma map_markets_frame (legs : list dict) (from_plat to_plat : string) :
  Forall (λ leg, hashable (get_default "market" (VStr "") leg) = true) legs →
  ∃ out, map_markets legs from_plat to_plat = Ok out
    ∧ length out = length legs
    ∧ ∀ i leg, legs !! i = Some leg →
        ∃ leg', out !! i = Some leg'
          ∧ leg' !! "market" = Some (translated from_plat (get_default "market" (VStr "") leg))
          ∧ ∀ k, k ≠ "market" → leg' !! k = leg !! k.
Proof.
  intros Hlegs. eexists. split; [by apply map_markets_hashable|].
  split; [by rewrite length_fmap|].
  intros i leg Hi. exists (translated_leg from_plat leg). split_and!.
  - by rewrite list_lookup_fmap, Hi.
  - unfold translated_leg. by rewrite lookup_insert_eq.
  - intros k Hk. unfold translated_leg. by rewrite lookup_insert_ne.
Qed.

Lemma translated_unmapped (from_plat m : string) :
  MARKET_MAP !! (from_plat, m) = None → translated from_plat (VStr m) = VStr m.
Proof. unfold translated. by intros ->. Qed.

(** C6. A leg that the normalizer builds from an item whose market is a
    JSON object makes the translator raise [TypeError]: the market is part
    of the key under which the table is looked up, and a dictionary cannot
    be hashed. *)
Theorem map_markets_unhashable_market :
  ∃ leg,
    parse_slip_from_payload object_market_payload = Ok (Some [leg])
    ∧ leg !! "market" = Some (VDict {[ "id" := VInt 1 ]})
    ∧ map_markets [leg] "sportybet" "bet9ja" = Raise TypeError.
Proof. eexists. split_and!; reflexivity. Qed.

(** The same leg reaches the translator through the endpoint: on a page
    whose embedded payload has an object as market, [convert] ends with the
    [TypeError]. *)
Lemma convert_raises_on_object_market (py_hash : string → Z) :
  (exec object_market_tool
     (convert loads_object_market py_hash
        {| code := "ABC"; from_platform := sportybet; to_platform := bet9ja |})).1
  = Raise TypeError.
Proof. reflexivity. Qed.

End Translator.

(** ** The code synthesizer *)

Module Synthesizer.
Import PyStr PyStrFacts Regex RegexFacts Converter Spec.

Lemma digits_value_app acc a b :
  digits_value acc (a +:+ b) = digits_value (digits_value acc a) b.
Proof. revert acc. induction a as [|c a IH]; intros acc; simpl; [done|apply IH]. Qed.

Lemma code_digit_char d : (0 ≤ d < 10)%Z → Z.of_N (PyStr.code (digit_char d)) = (48 + d)%Z.
Proof.
  intros Hd. unfold PyStr.code, digit_char, PyStr.chr. lia.
Qed.

Lemma is_digit_digit_char d : (0 ≤ d < 10)%Z → PyFloat.is_digit (digit_char d) = true.
Proof.
  intros Hd. unfold PyFloat.is_digit, PyFloat.digit_val.
  pose proof (code_digit_char d Hd) as Hc.
  destruct (_ && _)%N eqn:Hb; [by apply bool_decide_eq_true|].
  apply andb_false_iff in Hb as [Hb|Hb]; apply N.leb_gt in Hb; lia.
Qed.

Lemma digits_upto_value fuel n :
  (0 ≤ n < 10 ^ Z.of_nat fuel)%Z → digits_value 0 (digits_upto fuel n) = n.
Proof.
  revert n. induction fuel as [|fuel IH]; intros n Hn; simpl.
  - simpl in Hn. lia.
  - rewrite digits_value_app. simpl.
    rewrite code_digit_char by (apply Z.mod_pos_bound; lia).
    destruct (n <? 10)%Z eqn:Hlt.
    + apply Z.ltb_lt in Hlt. simpl. rewrite Z.mod_small; lia.
    + apply Z.ltb_ge in Hlt. rewrite IH.
      * pose proof (Z.div_mod n 10). lia.
      * rewrite Nat2Z.inj_succ, Z.pow_succ_r in Hn by lia.
        split; [apply Z.div_pos; lia|apply Z.div_lt_upper_bound; lia].
Qed.

Lemma digits_upto_digits fuel n :
  (0 ≤ n)%Z → all PyFloat.is_digit (digits_upto fuel n) = true.
Proof.
  revert n. induction fuel as [|fuel IH]; intros n Hn; simpl; [done|].
  rewrite all_app. simpl.
  rewrite is_digit_digit_char by (apply Z.mod_pos_bound; lia).
  destruct (n <? 10)%Z; [done|]. rewrite IH; [done|apply Z.div_pos; lia].
Qed.

Lemma digits_upto_length fuel n k :
  (0 ≤ n < 10 ^ Z.of_nat k)%Z → (1 ≤ k)%nat →
  (Text.length (digits_upto fuel n) ≤ k)%nat.
Proof.
  revert n k. induction fuel as [|fuel IH]; intros n k Hn Hk; simpl; [lia|].
  rewrite length_app. simpl.
  destruct (n <? 10)%Z eqn:Hlt; simpl; [lia|].
  apply Z.ltb_ge in Hlt. destruct k as [|[|k]]; [lia|simpl in Hn; lia|].
  rewrite (Nat2Z.inj_succ (S k)), Z.pow_succ_r in Hn by lia.
  assert (0 ≤ n / 10 < 10 ^ Z.of_nat (S k))%Z as Hdiv
    by (split; [apply Z.div_pos; lia|apply Z.div_lt_upper_bound; lia]).
  specialize (IH (n / 10)%Z (S k) Hdiv). lia.
Qed.

Lemma str_of_nonneg_value n : (0 ≤ n)%Z → digits_value 0 (str_of_nonneg n) = n.
Proof.
  intros Hn. apply digits_upto_value. split; [done|].
  destruct (decide (n = 0%Z)) as [->|]; [apply Z.pow_pos_nonneg; lia|].
  rewrite Nat2Z.inj_succ, Z2Nat.id by apply Z.log2_nonneg.
  pose proof (Z.log2_spec n ltac:(lia)) as [_ Hlt].
  eapply Z.lt_le_trans; [exact Hlt|].
  apply Z.pow_le_mono_l. pose proof (Z.log2_nonneg n). lia.
Qed.

Lemma length_zeros k : Text.length (zeros k) = k.
Proof. induction k; simpl; congruence. Qed.

Lemma all_zeros k : all PyFloat.is_digit (zeros k) = true.
Proof. induction k; simpl; [done|exact IHk]. Qed.

Lemma digits_value_zeros k s : digits_value 0 (zeros k +:+ s) = digits_value 0 s.
Proof. induction k; simpl; [done|exact IHk]. Qed.

(** Five digits for a number below 100000. *)
Lemma format_05d_small n :
  (0 ≤ n < 100000)%Z →
  Text.length (format_05d n) = 5
  ∧ all PyFloat.is_digit (format_05d n) = true
  ∧ digits_value 0 (format_05d n) = n.
Proof.
  intros Hn. unfold format_05d.
  destruct (n <? 0)%Z eqn:Hneg; [apply Z.ltb_lt in Hneg; lia|].
  unfold zfill.
  assert (Text.length (str_of_nonneg n) ≤ 5)%nat as Hlen
    by (apply digits_upto_length; simpl; lia).
  split_and!.
  - rewrite length_app, length_zeros. lia.
  - rewrite all_app, all_zeros. simpl. apply digits_upto_digits. lia.
  - rewrite digits_value_zeros. apply str_of_nonneg_value. lia.
Qed.

(** An ASCII digit is a decimal digit, which [\d] matches. *)
Lemma is_digit_decimal c : PyFloat.is_digit c = true → PyFloat.is_decimal c = true.
Proof.
  unfold PyFloat.is_digit, PyFloat.digit_val, PyFloat.is_decimal, PyFloat.decimal_val,
    PyFloat.decimal_zeros.
  destruct ((48 <=? PyStr.code c) && (PyStr.code c <=? 57))%N eqn:E;
    [|intros H%bool_decide_eq_true; by destruct H].
  intros _. apply andb_true_iff in E as [H1%N.leb_le H2%N.leb_le].
  cbn [List.find].
  assert ((48 <=? PyStr.code c) && (PyStr.code c <? 48 + 10) = true)%N as ->.
  { apply andb_true_iff. split; [by apply N.leb_le|apply N.ltb_lt; lia]. }
  by apply bool_decide_eq_true.
Qed.

Lemma fullmatch_code (pfx ds : string) :
  pfx = "SP" ∨ pfx = "BJ" →
  Text.length ds = 5 → all PyFloat.is_digit ds = true →
  fullmatch flags_0 booking_code_re (pfx +:+ ds) = true.
Proof.
  intros Hp Hlen Hall.
  destruct ds as [|d1 [|d2 [|d3 [|d4 [|d5 [|? ?]]]]]]; try discriminate.
  simpl in Hall. repeat (apply andb_true_iff in Hall as [?%is_digit_decimal Hall]).
  unfold fullmatch. apply existsb_exists.
  exists ([(1, pfx)], ""). split; [|done].
  apply list_elem_of_In, run_spec. eexists. split; [by rewrite app_nil_r|].
  unfold booking_code_re. simpl.
  exists pfx, (String d1 (String d2 (String d3 (String d4 (String d5 ""))))), [(1, pfx)].
  split; [done|]. split.
  { exists []. split; [|done].
    destruct Hp as [-> | ->]; [left; exists "S", "P", []|right; exists "B", "J", []];
      (split; [reflexivity|]); split; eexists; split_and!; reflexivity. }
  repeat (eexists (String _ ""), _, _; split; [reflexivity|];
          split; [eexists; split_and!; [reflexivity|eassumption|reflexivity]|]).
  eexists. split_and!; [reflexivity|eassumption|reflexivity].
Qed.

(** C7. For every target platform and every source code the synthesized
    code is a prefix, "BJ" exactly when the target is bet9ja and "SP"
    otherwise, followed by exactly five decimal digits, so it matches
    [^(SP|BJ)\d{5}$]; the five digits, zero-padded, denote the absolute
    value of the hash of the source code modulo 100000. *)
Theorem booking_code_format (py_hash : string → Z) (to_plat source_code : string) :
  let c := generate_booking_code_for_demo py_hash to_plat source_code in
  fullmatch flags_0 booking_code_re c = true
  ∧ ∃ ds, c = (if Text.eqb to_plat "bet9ja" then "BJ" else "SP") +:+ ds
      ∧ Text.length ds = 5
      ∧ all PyFloat.is_digit ds = true
      ∧ digits_value 0 ds = (Z.abs (py_hash source_code) mod 100000)%Z.
Proof.
  simpl. unfold generate_booking_code_for_demo.
  pose proof (format_05d_small (Z.abs (py_hash source_code) mod 100000)) as (Hl & Hd & Hv).
  { apply Z.mod_pos_bound. lia. }
  split; [|by eauto].
  apply fullmatch_code; [|done|done]. destruct (Text.eqb _ _); auto.
Qed.

End Synthesizer.

(** ** The endpoint *)

Module Endpoint.
Import Converter Spec.

Lemma exec_from_bind {A B} (w : tool) (n : nat) (p : prog A) (k : A → prog B) :
  exec_from w n (p ≫= k) =
  let '(a, tr) := exec_from w n p in
  let '(b, tr') := exec_from w (n + length tr) (k a) in
  (b, tr ++ tr').
Proof.
  revert n. induction p as [a|T e h IH]; intros n; simpl.
  - rewrite Nat.add_0_r. change (Ret a ≫= k) with (k a). by destruct (exec_from w n (k a)).
  - change (Call e h ≫= k) with (Call e (λ r, h r ≫= k)). simpl.
    rewrite IH. destruct (exec_from w (S n) (h (w T n e))) as [a tr]. simpl.
    rewrite Nat.add_succ_r. by destruct (exec_from w (S (n + length tr)) (k a)).
Qed.

(** C5. For the request with code BJ99999 from bet9ja to sportybet the
    endpoint makes no call to the page-fetch tool and returns [ok = true]
    with a converted code and a preview of exactly one leg, which has the
    five fields home "Barcelona", away "Real Madrid", market "O/U 2.5",
    pick "OVER" and odds the float 1.95, and no other. *)
Theorem convert_demo_code (json_loads : string → result value) (py_hash : string → Z) :
  ∃ r leg f,
    convert json_loads py_hash demo_request = Ret (Ok r)
    ∧ ok r = true
    ∧ preview r = Some (Slip [leg])
    ∧ leg !! "home" = Some (VStr "Barcelona")
    ∧ leg !! "away" = Some (VStr "Real Madrid")
    ∧ leg !! "market" = Some (VStr "O/U 2.5")
    ∧ leg !! "pick" = Some (VStr "OVER")
    ∧ leg !! "odds" = Some (VFloat f)
    ∧ dom leg = leg_fields
    ∧ PyFloat.of_str "1.95" = Ok f
    ∧ converted_code r = Some (generate_booking_code_for_demo py_hash "sportybet" "BJ99999").
Proof.
  eexists _, _, _. split_and!; reflexivity.
Qed.

(** C8. A request whose source and target platform are the same is
    answered at once: the endpoint is the plain return of [ok = false]
    with the message "From/To platforms are the same."; it raises nothing
    and, whatever the tool, makes no call to it. *)
Theorem convert_same_platform (json_loads : string → result value)
    (py_hash : string → Z) (req : ConvertRequest) :
  from_platform req = to_platform req →
  convert json_loads py_hash req = Ret (Ok same_platform_result)
  ∧ ∀ w : tool, exec w (convert json_loads py_hash req) = (Ok same_platform_result, []).
Proof.
  intros Heq. assert (convert json_loads py_hash req = Ret (Ok same_platform_result)) as ->.
  { unfold convert. by destruct (decide _). }
  done.
Qed.

Lemma convert_same_platform_witness :
  convert (λ _, Raise ValueError) (λ _, 0%Z) same_platform_request
    = Ret (Ok same_platform_result).
Proof.
  apply (convert_same_platform (λ _, Raise ValueError) (λ _, 0%Z) same_platform_request).
  reflexivity.
Defined.

(** C9. Every result of the endpoint with [ok = false] has neither a
    converted code nor a preview. *)
Theorem convert_failure_fields (json_loads : string → result value)
    (py_hash : string → Z) (req : ConvertRequest) (w : tool) (r : ConvertResult) :
  (exec w (convert json_loads py_hash req)).1 = Ok r →
  ok r = false →
  converted_code r = None ∧ preview r = None.
Proof.
  unfold convert, exec. destruct (decide _) as [Heq|Hne].
  - simpl. by intros [= <-].
  - rewrite exec_from_bind.
    destruct (exec_from w 0 _) as [[s|] tr]; simpl.
    + destruct (map_markets _ _ _); simpl; [|done]. by intros [= <-].
    + by intros [= <-].
Qed.

Lemma convert_failure_fields_witness :
  converted_code same_platform_result = None ∧ preview same_platform_result = None.
Proof.
  apply (convert_failure_fields (λ _, Raise ValueError) (λ _, 0%Z)
           same_platform_request no_tool same_platform_result);
    reflexivity.
Defined.

End Endpoint.

(** ** The slip resolver *)

Module Resolver.
Import Converter Spec Endpoint.

Lemma exec_from_call {T A} (w : tool) (n : nat) (e : browserE T)
    (k : T → prog (result A)) :
  exec_from w n (call e k) =
  match w T n e with
  | Ok t => let '(a, tr) := exec_from w (S n) (k t) in (a, Event e :: tr)
  | Raise x => (Raise x, [Event e])
  end.
Proof. unfold call. simpl. by destruct (w T n e). Qed.

Lemma closes_cons ev tr : closes tr → closes (ev :: tr).
Proof. intros [tr' ->]. by exists (ev :: tr'). Qed.

Lemma closes_app tr1 tr2 : closes tr2 → closes (tr1 ++ tr2).
Proof. intros [tr' ->]. exists (tr1 ++ tr'). by rewrite app_assoc. Qed.

Lemma truthy_legs_some l : truthy_legs l = true → ∃ leg legs, l = Some (leg :: legs).
Proof. destruct l as [[|leg legs]|]; [done|eauto|done]. Qed.

(** One turn of the selector loop: it navigates nowhere, and legs come
    with a closed browser. *)
Lemma try_selector_spec (w : tool) (n : nat) (sel : string) r tr :
  exec_from w n (try_selector sel) = (r, tr) →
  omap goto_url tr = []
  ∧ (∀ l, r = Some l → l ≠ [] ∧ closes tr).
Proof.
  unfold try_selector. rewrite exec_from_bind, exec_from_call.
  destruct (w bool n (QuerySelector sel)) as [[|]|]; cbn beta iota.
  - rewrite exec_from_call.
    destruct (w string (S n) (InnerText sel)) as [text|]; cbn beta iota zeta.
    + destruct (truthy_legs (parse_slip_from_text text)) eqn:Hl; cbn beta iota zeta.
      * apply truthy_legs_some in Hl as (leg & legs & Hl).
        rewrite exec_from_call. destruct (w unit (S (S n)) Close); simpl;
          intros [= <- <-]; (split; [done|]); intros l Hr; [|done].
        rewrite Hl in Hr. injection Hr as <-.
        split; [done|]. by exists [Event (QuerySelector sel); Event (InnerText sel)].
      * simpl. by intros [= <- <-].
    + by intros [= <- <-].
  - by intros [= <- <-].
  - by intros [= <- <-].
Qed.

Lemma try_selectors_spec (w : tool) (n : nat) (sels : list string) r tr :
  exec_from w n (try_selectors sels) = (r, tr) →
  omap goto_url tr = []
  ∧ (∀ l, r = Some l → l ≠ [] ∧ closes tr).
Proof.
  revert n r tr. induction sels as [|sel sels IH]; intros n r tr; cbn [try_selectors].
  - simpl. intros ?. by simplify_eq.
  - rewrite exec_from_bind.
    destruct (exec_from w n (try_selector sel)) as [r1 tr1] eqn:H1.
    apply try_selector_spec in H1 as [Hq1 Hc1].
    destruct r1 as [l1|]; simpl.
    + intros [= <- <-]. rewrite app_nil_r. split; [done|]. intros l [= <-]. by apply Hc1.
    + destruct (exec_from w (n + length tr1) (try_selectors sels)) as [r2 tr2] eqn:H2.
      apply IH in H2 as [Hq2 Hc2]. intros [= <- <-].
      rewrite omap_app, Hq1, Hq2. split; [done|].
      intros l Hl. destruct (Hc2 l Hl) as [? ?]. split; [done|]. by apply closes_app.
Qed.

Lemma omap_goto_cons url tr :
  omap goto_url (Event (Goto url) :: tr) = url :: omap goto_url tr.
Proof. done. Qed.

Section WithLoads.
Variable json_loads : string → result value.

Lemma try_payload_spec (w : tool) (n : nat) r tr :
  exec_from w n (try_payload json_loads) = (r, tr) →
  omap goto_url tr = []
  ∧ (∀ l, r = Ok (Some l) → l ≠ [] ∧ closes tr).
Proof.
  unfold try_payload. rewrite exec_from_call.
  destruct (w string n Content) as [html|]; cbn beta iota zeta; [|by intros [= <- <-]].
  destruct (extract_json_payload_from_html json_loads html) as [payload|];
    [|simpl; by intros [= <- <-]].
  destruct (truthy payload); [|simpl; by intros [= <- <-]].
  destruct (parse_slip_from_payload payload) as [l|]; [|simpl; by intros [= <- <-]].
  destruct (truthy_legs l) eqn:Hl; [|simpl; by intros [= <- <-]].
  apply truthy_legs_some in Hl as (leg & legs & ->).
  rewrite exec_from_call. destruct (w unit (S n) Close); simpl;
    intros [= <- <-]; (split; [done|]); intros l [= <-].
  split; [done|]. by exists [Event Content].
Qed.

Lemma try_urls_spec (w : tool) (n : nat) (us : list string) r tr :
  exec_from w n (try_urls json_loads us) = (r, tr) →
  omap goto_url tr `prefix_of` us
  ∧ (∀ l, r = Ok (Some l) → l ≠ [] ∧ closes tr).
Proof.
  revert n r tr. induction us as [|url us IH]; intros n r tr; cbn [try_urls].
  - rewrite exec_from_call. destruct (w unit n Close); simpl; by intros [= <- <-].
  - cbn [exec_from]. destruct (w unit n (Goto url)).
    + rewrite exec_from_bind.
      destruct (exec_from w (S n) (try_selectors selectors_to_try)) as [r1 tr1] eqn:H1.
      apply try_selectors_spec in H1 as [Hq1 Hc1].
      destruct r1 as [l1|].
      * simpl. intros [= <- <-]. rewrite app_nil_r, omap_goto_cons, Hq1. split.
        -- apply prefix_cons, prefix_nil.
        -- intros l [= <-]. destruct (Hc1 l1 eq_refl). split; [done|]. by apply closes_cons.
      * rewrite exec_from_bind.
        destruct (exec_from w (S n + length tr1) (try_payload json_loads))
          as [r2 tr2] eqn:H2.
        apply try_payload_spec in H2 as [Hq2 Hc2].
        assert (∀ (r' : result (option (list dict))) tr',
                  omap goto_url tr' `prefix_of` us
                  ∧ (∀ l, r' = Ok (Some l) → l ≠ [] ∧ closes tr') →
                  omap goto_url (Event (Goto url) :: tr1 ++ tr2 ++ tr') `prefix_of` url :: us
                  ∧ (∀ l, r' = Ok (Some l) →
                       l ≠ [] ∧ closes (Event (Goto url) :: tr1 ++ tr2 ++ tr'))) as Hrest.
        { intros r' tr' [Hp Hc]. rewrite omap_goto_cons, !omap_app, Hq1, Hq2. simpl. split.
          - by apply prefix_cons.
          - intros l Hl. destruct (Hc l Hl). split; [done|].
            by apply closes_cons, closes_app, closes_app. }
        destruct r2 as [[l2|]|e].
        -- simpl. intros [= <- <-]. rewrite !app_nil_r, omap_goto_cons, omap_app, Hq1, Hq2.
           split; [apply prefix_cons, prefix_nil|].
           intros l [= <-]. destruct (Hc2 l2 eq_refl). split; [done|].
           by apply closes_cons, closes_app.
        -- destruct (exec_from w (S n + length tr1 + length tr2) (try_urls json_loads us))
             as [r3 tr3] eqn:H3.
           apply IH in H3. intros [= <- <-]. by apply Hrest.
        -- simpl. intros [= <- <-]. rewrite !app_nil_r, omap_goto_cons, omap_app, Hq1, Hq2.
           split; [apply prefix_cons, prefix_nil|done].
    + destruct (exec_from w (S n) (try_urls json_loads us)) as [r3 tr3] eqn:H3.
      apply IH in H3 as [Hp Hc]. intros [= <- <-]. rewrite omap_goto_cons. split.
      * by apply prefix_cons.
      * intros l Hl. destruct (Hc l Hl). split; [done|]. by apply closes_cons.
Qed.

(** The body of the [with] block. *)
Lemma with_body_spec (w : tool) (n : nat) (code : string) (timeout : Z) r tr :
  exec_from w n
    (call Launch (λ _, call NewPage (λ _,
     call (SetDefaultTimeout (timeout * 1000)) (λ _,
     try_urls json_loads (urls code))))) = (r, tr) →
  omap goto_url tr `prefix_of` urls code
  ∧ (∀ l, r = Ok (Some l) → l ≠ [] ∧ closes tr).
Proof.
  rewrite exec_from_call. destruct (w unit n Launch); [|intros [= <- <-]; split; [apply prefix_nil|done]].
  rewrite exec_from_call. destruct (w unit (S n) NewPage);
    [|intros [= <- <-]; split; [apply prefix_nil|done]].
  rewrite exec_from_call. destruct (w unit (S (S n)) (SetDefaultTimeout _));
    [|intros [= <- <-]; split; [apply prefix_nil|done]].
  destruct (exec_from w (S (S (S n))) (try_urls json_loads (urls code))) as [r' tr'] eqn:H.
  apply try_urls_spec in H as [Hp Hc]. intros [= <- <-]. split; [done|].
  intros l Hl. destruct (Hc l Hl). split; [done|]. by do 3 apply closes_cons.
Qed.

(** X1. The resolver starts with the tool's start-up. When that raises,
    the result is [None] and nothing else is called; otherwise the last call
    is always the one that leaves the [with] block, whatever happened in
    between. *)
Theorem resolver_leaves_with_block (w : tool) (code : string) (timeout : Z) :
  match w unit 0 Start with
  | Raise _ =>
      exec w (fetch_sportybet_slip_playwright json_loads code timeout)
        = (None, [Event Start])
  | Ok _ =>
      ∃ r tr,
        exec w (fetch_sportybet_slip_playwright json_loads code timeout)
          = (r, Event Start :: tr ++ [Event Stop])
  end.
Proof.
  unfold exec, fetch_sportybet_slip_playwright. cbn [exec_from].
  destruct (w unit 0 Start); [|done].
  rewrite exec_from_bind. destruct (exec_from w 1 _) as [b tr]. cbn [exec_from].
  destruct (w unit (1 + length tr) Stop), b as [[l|]|]; simpl; eauto.
Qed.

(** A slip that leaves the resolver has a leg. *)
Lemma fetch_some (w : tool) (code : string) (timeout : Z) s tr :
  exec w (fetch_sportybet_slip_playwright json_loads code timeout) = (Some s, tr) →
  legs s ≠ [].
Proof.
  unfold exec, fetch_sportybet_slip_playwright. cbn [exec_from].
  destruct (w unit 0 Start); [|done].
  rewrite exec_from_bind. destruct (exec_from w 1 _) as [b tr1] eqn:Hb.
  apply with_body_spec in Hb as [_ Hc]. cbn [exec_from].
  destruct (w unit (1 + length tr1) Stop), b as [[l|]|]; simpl; try done.
  intros [= <- _]. by destruct (Hc l eq_refl).
Qed.

(** X2. A slip that the resolver returns has at least one leg, and the
    browser was closed right before the [with] block was left. *)
Theorem resolver_slip_nonempty (w : tool) (code : string) (timeout : Z) s tr :
  exec w (fetch_sportybet_slip_playwright json_loads code timeout) = (Some s, tr) →
  legs s ≠ [] ∧ ∃ tr', tr = tr' ++ [Event Close; Event Stop].
Proof.
  unfold exec, fetch_sportybet_slip_playwright. cbn [exec_from].
  destruct (w unit 0 Start); [|done].
  rewrite exec_from_bind. destruct (exec_from w 1 _) as [b tr1] eqn:Hb.
  apply with_body_spec in Hb as [_ Hc]. cbn [exec_from].
  destruct (w unit (1 + length tr1) Stop), b as [[l|]|]; simpl; try done.
  intros [= <- <-]. destruct (Hc l eq_refl) as [Hl [tr' ->]]. split; [done|].
  exists (Event Start :: tr'). simpl. by rewrite <-app_assoc.
Qed.

(** X3. The pages the resolver navigates to are, in order, the first ones of
    the four candidate URLs of the code: no URL is visited twice or out of
    turn, and none other is visited. *)
Theorem resolver_navigations (w : tool) (code : string) (timeout : Z) :
  omap goto_url (exec w (fetch_sportybet_slip_playwright json_loads code timeout)).2
    `prefix_of` urls code.
Proof.
  unfold exec, fetch_sportybet_slip_playwright. cbn [exec_from].
  destruct (w unit 0 Start); [|apply prefix_nil].
  rewrite exec_from_bind. destruct (exec_from w 1 _) as [b tr1] eqn:Hb.
  apply with_body_spec in Hb as [Hp _]. cbn [exec_from].
  assert (omap goto_url (Event Start :: tr1 ++ [Event Stop]) = omap goto_url tr1) as Hom.
  { change (Event Start :: tr1 ++ [Event Stop]) with ([Event Start] ++ tr1 ++ [Event Stop]).
    rewrite !omap_app. simpl. by rewrite app_nil_r. }
  destruct (w unit (1 + length tr1) Stop), b as [[l|]|]; simpl snd; by rewrite Hom.
Qed.

Lemma try_selectors_absent (w : tool) (n : nat) (sels : list string) :
  (∀ n sel, w bool n (QuerySelector sel) = Ok false) →
  exec_from w n (try_selectors sels) = (None, (λ sel, Event (QuerySelector sel)) <$> sels).
Proof.
  intros Hw. revert n. induction sels as [|sel sels IH]; intros n; cbn [try_selectors].
  - done.
  - rewrite exec_from_bind. unfold try_selector.
    rewrite exec_from_bind, exec_from_call, Hw. simpl. by rewrite IH.
Qed.

Lemma try_urls_unreachable (w : tool) (n : nat) (us : list string) :
  (∀ n url, w unit n (Goto url) ≠ Ok tt) →
  exec_from w n (try_urls json_loads us)
  = (match w unit (n + length us) Close with
     | Ok _ => Ok None
     | Raise e => Raise e
     end,
     ((λ url, Event (Goto url)) <$> us) ++ [Event Close]).
Proof.
  intros Hw. revert n. induction us as [|url us IH]; intros n; cbn [try_urls].
  - rewrite exec_from_call, Nat.add_0_r. by destruct (w unit n Close).
  - cbn [exec_from].
    destruct (w unit n (Goto url)) as [[]|e] eqn:Hg; [by apply Hw in Hg|].
    rewrite IH. simpl. by rewrite Nat.add_succ_r.
Qed.

Lemma try_selectors_found (w : tool) (n : nat) (sel : string) (sels : list string)
    (text : string) (found : list dict) :
  w bool n (QuerySelector sel) = Ok true →
  w string (S n) (InnerText sel) = Ok text →
  parse_slip_from_text text = Some found →
  w unit (S (S n)) Close = Ok tt →
  exec_from w n (try_selectors (sel :: sels))
  = (Some found, [Event (QuerySelector sel); Event (InnerText sel); Event Close]).
Proof.
  intros Hq Ht Hparse Hc.
  assert (truthy_legs (Some found) = true) as Htruthy.
  { unfold parse_slip_from_text in Hparse.
    destruct (stripped_lines text ≫= legs_of_line); by simplify_eq/=. }
  cbn [try_selectors]. rewrite exec_from_bind. unfold try_selector.
  rewrite exec_from_bind, exec_from_call, Hq, exec_from_call, Ht.
  cbn beta iota zeta. rewrite Hparse, Htruthy, exec_from_call, Hc. done.
Qed.

Lemma try_urls_selected (w : tool) (n : nat) (url : string) (us : list string) l tr :
  w unit n (Goto url) = Ok tt →
  exec_from w (S n) (try_selectors selectors_to_try) = (Some l, tr) →
  exec_from w n (try_urls json_loads (url :: us)) = (Ok (Some l), Event (Goto url) :: tr).
Proof.
  intros Hg Hs. cbn [try_urls exec_from]. rewrite Hg, exec_from_bind, Hs. simpl.
  by rewrite app_nil_r.
Qed.

Lemma try_urls_raised (w : tool) (n : nat) (url : string) (us : list string) tr1 tr2 e :
  w unit n (Goto url) = Ok tt →
  exec_from w (S n) (try_selectors selectors_to_try) = (None, tr1) →
  exec_from w (S n + length tr1) (try_payload json_loads) = (Raise e, tr2) →
  exec_from w n (try_urls json_loads (url :: us))
  = (Raise e, Event (Goto url) :: tr1 ++ tr2).
Proof.
  intros Hg Hs Hp. cbn [try_urls exec_from].
  rewrite Hg, exec_from_bind, Hs, exec_from_bind, Hp. simpl. by rewrite app_nil_r.
Qed.

(** X4. When the first URL loads and its first container holds a text with
    a versus line, the legs of that text are returned at once: no other
    container is asked for, the markup of the page is not read and no other
    URL is visited. *)
Theorem resolver_text_first (w : tool) (code : string) (timeout : Z)
    (text : string) (found : list dict) :
  opens w timeout →
  w unit 4 (Goto ("https://www.sportybet.com/ng/m/sporty/booking?bookingCode=" +:+ code))
    = Ok tt →
  w bool 5 (QuerySelector "div.share-bet-slip") = Ok true →
  w string 6 (InnerText "div.share-bet-slip") = Ok text →
  parse_slip_from_text text = Some found →
  w unit 7 Close = Ok tt →
  w unit 8 Stop = Ok tt →
  exec w (fetch_sportybet_slip_playwright json_loads code timeout)
  = (Some (Slip found),
     opening timeout ++
     [Event (Goto ("https://www.sportybet.com/ng/m/sporty/booking?bookingCode=" +:+ code));
      Event (QuerySelector "div.share-bet-slip");
      Event (InnerText "div.share-bet-slip");
      Event Close; Event Stop]).
Proof.
  intros (H0 & H1 & H2 & H3) H4 H5 H6 Hparse H7 H8.
  unfold exec, fetch_sportybet_slip_playwright, urls.
  cbn [exec_from]. rewrite H0, exec_from_bind, !exec_from_call, H1, H2, H3.
  erewrite try_urls_selected;
    [|done|unfold selectors_to_try; by eapply try_selectors_found].
  cbn [exec_from length Nat.add]. by rewrite H8.
Qed.

(** X5. When no URL can be reached, the resolver tries each of the four
    URLs once, asks the pages nothing, closes the browser and returns
    [None]. *)
Theorem resolver_unreachable (w : tool) (code : string) (timeout : Z) :
  opens w timeout →
  (∀ n url, w unit n (Goto url) ≠ Ok tt) →
  exec w (fetch_sportybet_slip_playwright json_loads code timeout)
  = (None,
     opening timeout ++ ((λ url, Event (Goto url)) <$> urls code)
       ++ [Event Close; Event Stop]).
Proof.
  intros (H0 & H1 & H2 & H3) Hw.
  unfold exec, fetch_sportybet_slip_playwright.
  cbn [exec_from]. rewrite H0, exec_from_bind, !exec_from_call, H1, H2, H3.
  rewrite try_urls_unreachable by done.
  destruct (w unit (4 + length (urls code)) Close); cbn [exec_from];
    destruct (w unit _ Stop); unfold opening; cbn [exec_from app];
    by rewrite <-app_assoc.
Qed.

(** X6. An exception of the payload normalizer ends the whole resolution:
    when the first URL loads, none of its containers is there and the
    normalizer raises on the payload embedded in its markup, the result is
    [None]; the other URLs are not visited and the browser is not closed. *)
Theorem resolver_payload_exception (w : tool) (code : string) (timeout : Z)
    (html : string) (payload : value) (e : exn) :
  opens w timeout →
  w unit 4 (Goto ("https://www.sportybet.com/ng/m/sporty/booking?bookingCode=" +:+ code))
    = Ok tt →
  (∀ n sel, w bool n (QuerySelector sel) = Ok false) →
  w string 10 Content = Ok html →
  extract_json_payload_from_html json_loads html = Some payload →
  truthy payload = true →
  parse_slip_from_payload payload = Raise e →
  exec w (fetch_sportybet_slip_playwright json_loads code timeout)
  = (None,
     opening timeout ++
     [Event (Goto ("https://www.sportybet.com/ng/m/sporty/booking?bookingCode=" +:+ code))]
     ++ ((λ sel, Event (QuerySelector sel)) <$> selectors_to_try)
     ++ [Event Content; Event Stop]).
Proof.
  intros (H0 & H1 & H2 & H3) H4 Hsel Hc Hex Htr Hraise.
  unfold exec, fetch_sportybet_slip_playwright, urls.
  cbn [exec_from]. rewrite H0, exec_from_bind, !exec_from_call, H1, H2, H3.
  erewrite (try_urls_raised _ _ _ _ _ [Event Content] e);
    [|done|by apply try_selectors_absent|].
  - cbn [exec_from]. by destruct (w unit _ Stop).
  - unfold try_payload. rewrite exec_from_call.
    change (w string _ Content) with (w string 10 Content).
    rewrite Hc. cbn beta iota zeta. by rewrite Hex, Htr, Hraise.
Qed.

End WithLoads.

Lemma resolver_slip_nonempty_witness :
  legs (Slip [text_leg "A" "B"]) ≠ []
  ∧ ∃ tr', (exec versus_tool
              (fetch_sportybet_slip_playwright (λ _, Raise ValueError) "ABC" 25)).2
           = tr' ++ [Event Close; Event Stop].
Proof.
  apply (resolver_slip_nonempty (λ _, Raise ValueError) versus_tool "ABC" 25
           (Slip [text_leg "A" "B"]) _).
  reflexivity.
Defined.

Lemma resolver_text_first_witness :
  (exec versus_tool (fetch_sportybet_slip_playwright (λ _, Raise ValueError) "ABC" 25)).1
  = Some (Slip [text_leg "A" "B"]).
Proof.
  rewrite (resolver_text_first (λ _, Raise ValueError) versus_tool "ABC" 25
             "A vs B" [text_leg "A" "B"]); [done|..]; try reflexivity.
  repeat split.
Defined.

Lemma resolver_unreachable_witness :
  (exec offline_tool (fetch_sportybet_slip_playwright (λ _, Raise ValueError) "ABC" 25)).1
  = None.
Proof.
  rewrite (resolver_unreachable (λ _, Raise ValueError) offline_tool "ABC" 25); [done|..].
  - repeat split.
  - intros n url. discriminate.
Defined.

Lemma resolver_payload_exception_witness :
  (exec number_item_tool
     (fetch_sportybet_slip_playwright loads_number_item "ABC" 25)).1 = None.
Proof.
  rewrite (resolver_payload_exception loads_number_item number_item_tool "ABC" 25
             number_item_page number_item_payload AttributeError); [done|..];
    try reflexivity.
  repeat split.
Defined.

End Resolver.

(** ** The endpoint, continued *)

Module Service.
Import Converter Spec Endpoint Resolver.

Lemma map_markets_length legs from_plat to_plat out :
  map_markets legs from_plat to_plat = Ok out → length out = length legs.
Proof.
  revert out. induction legs as [|leg legs IH]; intros out; simpl.
  - by intros [= <-].
  - destruct (map_market from_plat leg); simpl; [|done].
    destruct (map_markets legs from_plat to_plat); simpl; [|done].
    intros [= <-]. simpl. by rewrite (IH _ eq_refl).
Qed.

Lemma map_markets_raise legs from_plat to_plat e :
  map_markets legs from_plat to_plat = Raise e → e = TypeError.
Proof.
  induction legs as [|leg legs IH]; simpl; [done|].
  unfold map_market, MARKET_MAP_get.
  destruct (hashable _); simpl; [|by intros [= <-]].
  destruct (map_markets legs from_plat to_plat); simpl; [done|].
  intros [= <-]. by apply IH.
Qed.

Lemma demo_lookup c s : demo !! c = Some s → c = "BJ99999" ∧ legs s ≠ [].
Proof. unfold demo. intros [<- <-]%lookup_singleton_Some. done. Qed.

(** The slip the endpoint goes on with has at least one leg. *)
Lemma resolved_slip_nonempty json_loads (req : ConvertRequest) (w : tool) s tr :
  exec_from w 0
    (if Text.eqb (platform_name (from_platform req)) "sportybet"
     then fetch_sportybet_slip_playwright json_loads (code req) 25
     else if Text.eqb (platform_name (from_platform req)) "bet9ja"
          then Ret (demo !! code req) else Ret None) = (Some s, tr) →
  legs s ≠ [].
Proof.
  destruct (from_platform req); simpl Text.eqb; cbv iota.
  - intros H. by apply (fetch_some json_loads w (code req) 25 s tr).
  - simpl. intros [= H _]. by apply demo_lookup in H as [_ ?].
Qed.

(** X7. Every result of the endpoint with [ok = true] carries a preview
    with at least one leg, the synthesized code for the target platform and
    the message "Converted (live scrape).". *)
Theorem convert_success_fields (json_loads : string → result value)
    (py_hash : string → Z) (req : ConvertRequest) (w : tool) (r : ConvertResult) :
  (exec w (convert json_loads py_hash req)).1 = Ok r →
  ok r = true →
  ∃ out, preview r = Some (Slip out) ∧ out ≠ []
    ∧ converted_code r
      = Some (generate_booking_code_for_demo py_hash
                (platform_name (to_platform req)) (code req))
    ∧ message r = "Converted (live scrape).".
Proof.
  unfold convert, exec. destruct (decide _) as [Heq|Hne].
  - simpl. by intros [= <-].
  - rewrite exec_from_bind.
    destruct (exec_from w 0 _) as [[s|] tr] eqn:Hs; simpl; [|by intros [= <-]].
    apply resolved_slip_nonempty in Hs.
    destruct (map_markets _ _ _) as [out|] eqn:Hout; simpl; [|done].
    intros [= <-] _. exists out. split_and!; try done.
    apply map_markets_length in Hout. intros ->. by destruct (legs s).
Qed.

Lemma convert_success_fields_witness :
  ∃ out, preview
           {| ok := true; message := "Converted (live scrape).";
              converted_code :=
                Some (generate_booking_code_for_demo (λ _, 0%Z) "sportybet" "BJ99999");
              preview :=
                Some (Slip [make_leg (VStr "Barcelona") (VStr "Real Madrid")
                             (VStr "O/U 2.5") (VStr "OVER")
                             (VFloat (PyFloat.of_decimal false 195 (-2)))]) |}
         = Some (Slip out) ∧ out ≠ [].
Proof.
  destruct (convert_success_fields (λ _, Raise ValueError) (λ _, 0%Z) demo_request no_tool
              _ eq_refl eq_refl) as (out & H1 & H2 & _).
  by exists out.
Defined.

(** X8. A request from bet9ja to sportybet is answered without any call to
    the page-fetch tool, and with [ok = true] exactly when the code is
    "BJ99999". *)
Theorem convert_from_bet9ja (json_loads : string → result value)
    (py_hash : string → Z) (c : string) :
  ∃ r, convert json_loads py_hash
         {| code := c; from_platform := bet9ja; to_platform := sportybet |} = Ret (Ok r)
       ∧ (ok r = true ↔ c = "BJ99999").
Proof.
  unfold convert. simpl.
  destruct (decide (c = "BJ99999")) as [->|Hc].
  - eexists. split; [reflexivity|done].
  - change (Ret (demo !! c) ≫= ?k) with (k (demo !! c)).
    unfold demo. rewrite lookup_singleton_ne by done.
    eexists. split; [reflexivity|]. simpl. split; [done|by intros ->].
Qed.

(** X9. When the page-fetch tool cannot be started, a request from sportybet
    is answered with [ok = false] and the not-found message after that one
    call; no exception reaches the caller. *)
Theorem convert_tool_unavailable (json_loads : string → result value)
    (py_hash : string → Z) (c : string) (w : tool) (e : exn) :
  w unit 0 Start = Raise e →
  exec w (convert json_loads py_hash
            {| code := c; from_platform := sportybet; to_platform := bet9ja |})
  = (Ok not_found_result, [Event Start]).
Proof.
  intros Hw. unfold convert, exec. cbn [from_platform to_platform code].
  destruct (decide _) as [?|_]; [done|].
  rewrite exec_from_bind. simpl Text.eqb. cbv iota.
  unfold fetch_sportybet_slip_playwright. cbn [exec_from]. by rewrite Hw.
Qed.

Lemma convert_tool_unavailable_witness :
  exec no_tool (convert (λ _, Raise ValueError) (λ _, 0%Z)
                  {| code := "ABC"; from_platform := sportybet; to_platform := bet9ja |})
  = (Ok not_found_result, [Event Start]).
Proof.
  apply (convert_tool_unavailable _ _ "ABC" no_tool ToolError). reflexivity.
Defined.

(** X10. The only exception that leaves the endpoint is the [TypeError] of
    the market translator: whatever the tool does and whatever page it
    serves, no other exception reaches the caller. *)
Theorem convert_raises_only_type_error (json_loads : string → result value)
    (py_hash : string → Z) (req : ConvertRequest) (w : tool) (e : exn) :
  (exec w (convert json_loads py_hash req)).1 = Raise e → e = TypeError.
Proof.
  unfold convert, exec. destruct (decide _) as [Heq|Hne]; [done|].
  rewrite exec_from_bind.
  destruct (exec_from w 0 _) as [[s|] tr]; simpl; [|done].
  destruct (map_markets _ _ _) as [out|] eqn:Hout; simpl; [done|].
  intros [= <-]. by apply map_markets_raise in Hout.
Qed.

Lemma convert_raises_only_type_error_witness :
  ∃ e, (exec object_market_tool
          (convert loads_object_market (λ _, 0%Z)
             {| code := "ABC"; from_platform := sportybet; to_platform := bet9ja |})).1
       = Raise e
       ∧ e = TypeError.
Proof.
  exists TypeError. split; [reflexivity|].
  apply (convert_raises_only_type_error loads_object_market (λ _, 0%Z)
           {| code := "ABC"; from_platform := sportybet; to_platform := bet9ja |}
           object_market_tool TypeError).
  reflexivity.
Defined.

End Service.

(** ** The market translator, continued *)

Module Markets.
Import Converter Spec.

Lemma MARKET_MAP_entries f m x :
  MARKET_MAP !! (f, m) = Some x →
  ((f, m), x) ∈ [(("sportybet", "1X2"), "Match Result");
                 (("sportybet", "GG"), "Both Teams To Score");
                 (("sportybet", "O/U 2.5"), "Over/Under 2.5 Goals");
                 (("bet9ja", "Match Result"), "1X2");
                 (("bet9ja", "Both Teams To Score"), "GG");
                 (("bet9ja", "Over/Under 2.5 Goals"), "O/U 2.5")].
Proof. apply elem_of_list_to_map_2. Qed.

Ltac entries H :=
  apply MARKET_MAP_entries in H;
  repeat (apply elem_of_cons in H as [H|H]; [simplify_eq|]);
  [..|by apply elem_of_nil in H].

(** No value of the table is a key for the same platform. *)
Lemma translated_idemp f v : translated f (translated f v) = translated f v.
Proof.
  destruct v as [| | | |m| |]; try done. simpl.
  destruct (MARKET_MAP !! (f, m)) as [x|] eqn:Hx; simpl; [|by rewrite Hx].
  entries Hx; reflexivity.
Qed.

Lemma hashable_translated f v : hashable (translated f v) = hashable v.
Proof.
  destruct v as [| | | |m| |]; try done. simpl. by destruct (MARKET_MAP !! (f, m)).
Qed.

Lemma map_market_Ok f leg leg' :
  map_market f leg = Ok leg' ↔
  hashable (get_default "market" (VStr "") leg) = true ∧ leg' = translated_leg f leg.
Proof.
  unfold map_market, MARKET_MAP_get, translated_leg, translated.
  destruct (hashable _); simpl; [|by intuition].
  split; [by intros [= <-]|by intros [_ ->]].
Qed.

Lemma get_default_translated_leg f leg :
  get_default "market" (VStr "") (translated_leg f leg)
  = translated f (get_default "market" (VStr "") leg).
Proof. unfold translated_leg, get_default at 1. by rewrite lookup_insert_eq. Qed.

Lemma empty_market_unmapped f : MARKET_MAP !! (f, "") = None.
Proof. destruct (MARKET_MAP !! (f, "")) eqn:Hx; [|done]. entries Hx. Qed.

(** X11. The translator raises, and then [TypeError], exactly when the
    market of some leg is a list or a dictionary; the target platform plays
    no part in it. *)
Theorem map_markets_raises_iff (legs : list dict) (from_plat to_plat : string) (e : exn) :
  map_markets legs from_plat to_plat = Raise e ↔
  e = TypeError
  ∧ Exists (λ leg, hashable (get_default "market" (VStr "") leg) = false) legs.
Proof.
  induction legs as [|leg legs IH]; simpl.
  - split; [done|]. by intros [_ ?%Exists_nil].
  - rewrite Exists_cons. unfold map_market, MARKET_MAP_get.
    destruct (hashable _); simpl.
    + destruct (map_markets legs from_plat to_plat) as [out|]; simpl.
      * split; [done|]. intros [-> [?|H]]; [done|].
        by assert (Ok out = Raise TypeError) by (apply IH; auto).
      * split.
        -- intros [= <-]. destruct (proj1 IH eq_refl) as [-> ?]. auto.
        -- intros [-> [?|H]]; [done|]. apply IH. auto.
    + split; [intros [= <-]; auto|by intros [-> _]].
Qed.

(** X12. Translating the translated legs once more from the same platform
    changes nothing: no value of the table is a key of the table for the
    same platform. *)
Theorem map_markets_idempotent (legs out : list dict) (from_plat to_plat to_plat' : string) :
  map_markets legs from_plat to_plat = Ok out →
  map_markets out from_plat to_plat' = Ok out.
Proof.
  revert out. induction legs as [|leg legs IH]; intros out; simpl.
  - by intros [= <-].
  - destruct (map_market from_plat leg) as [leg'|] eqn:Hleg; simpl; [|done].
    destruct (map_markets legs from_plat to_plat) as [out'|]; simpl; [|done].
    intros [= <-]. simpl. rewrite (IH _ eq_refl). simpl.
    apply map_market_Ok in Hleg as [Hh ->].
    assert (map_market from_plat (translated_leg from_plat leg)
            = Ok (translated_leg from_plat leg)) as ->; [|done].
    apply map_market_Ok. rewrite get_default_translated_leg, hashable_translated.
    split; [done|]. unfold translated_leg at 2.
    rewrite get_default_translated_leg, translated_idemp.
    unfold translated_leg. by rewrite insert_insert_eq.
Qed.

Lemma map_markets_idempotent_witness :
  map_markets [make_leg (VStr "A") (VStr "B") (VStr "Match Result") (VStr "") VNone]
    "sportybet" "sportybet"
  = Ok [make_leg (VStr "A") (VStr "B") (VStr "Match Result") (VStr "") VNone].
Proof.
  apply (map_markets_idempotent
           [make_leg (VStr "A") (VStr "B") (VStr "1X2") (VStr "") VNone]
           _ "sportybet" "bet9ja" "sportybet").
  reflexivity.
Defined.

Lemma map_market_round_trip (p : platform) (leg : dict) :
  known_market p leg →
  ∃ leg', map_market (platform_name p) leg = Ok leg'
    ∧ known_market (other p) leg'
    ∧ map_market (platform_name (other p)) leg' = Ok leg.
Proof.
  intros (m & Hm & [x Hx]).
  exists (<["market" := VStr x]> leg).
  assert (get_default "market" (VStr "") leg = VStr m) as Hget
    by (unfold get_default; by rewrite Hm).
  assert (MARKET_MAP !! (platform_name (other p), x) = Some m) as Hback.
  { destruct p; simpl in *; entries Hx; reflexivity. }
  split_and!.
  - unfold map_market, MARKET_MAP_get. rewrite Hget. simpl. by rewrite Hx.
  - exists x. by rewrite lookup_insert_eq.
  - unfold map_market, MARKET_MAP_get, get_default. rewrite lookup_insert_eq. simpl.
    rewrite Hback. simpl. by rewrite insert_insert_eq, insert_id.
Qed.

(** X13. Translating to the other platform and back gives the legs one
    started from, when every leg has a market of the table for the source
    platform: the table is its own inverse. *)
Theorem map_markets_round_trip (p : platform) (legs : list dict) :
  Forall (known_market p) legs →
  ∃ out, map_markets legs (platform_name p) (platform_name (other p)) = Ok out
    ∧ Forall (known_market (other p)) out
    ∧ map_markets out (platform_name (other p)) (platform_name p) = Ok legs.
Proof.
  induction 1 as [|leg legs Hleg _ (out & Hout & Hknown & Hback)].
  - by exists [].
  - destruct (map_market_round_trip p leg Hleg) as (leg' & H1 & H2 & H3).
    exists (leg' :: out). simpl. rewrite H1, Hout, H3, Hback. simpl.
    split_and!; try done. by constructor.
Qed.

Lemma map_markets_round_trip_witness :
  ∃ out, map_markets [make_leg (VStr "A") (VStr "B") (VStr "GG") (VStr "Yes") VNone]
           "sportybet" "bet9ja" = Ok out
    ∧ map_markets out "bet9ja" "sportybet"
      = Ok [make_leg (VStr "A") (VStr "B") (VStr "GG") (VStr "Yes") VNone].
Proof.
  destruct (map_markets_round_trip sportybet
              [make_leg (VStr "A") (VStr "B") (VStr "GG") (VStr "Yes") VNone])
    as (out & H1 & _ & H2).
  - constructor; [|constructor]. exists "GG". split; [reflexivity|]. by eexists.
  - by exists out.
Defined.

(** X14. A leg without a market gets the empty string as its market, for
    every source platform: the default of the lookup is no key of the
    table. *)
Theorem map_markets_missing_market (legs : list dict) (from_plat to_plat : string) :
  Forall (λ leg, leg !! "market" = None) legs →
  map_markets legs from_plat to_plat = Ok ((λ leg, <["market" := VStr ""]> leg) <$> legs).
Proof.
  induction 1 as [|leg legs Hleg _ IH]; simpl; [done|].
  rewrite IH. unfold map_market, MARKET_MAP_get, get_default. rewrite Hleg. simpl.
  by rewrite empty_market_unmapped.
Qed.

Lemma map_markets_missing_market_witness :
  map_markets [{[ "home" := VStr "A" ]}] "sportybet" "bet9ja"
  = Ok [<["market" := VStr ""]> {[ "home" := VStr "A" ]}].
Proof.
  apply (map_markets_missing_market [{[ "home" := VStr "A" ]}] "sportybet" "bet9ja").
  constructor; [reflexivity|constructor].
Defined.

End Markets.

(** ** The code synthesizer, continued *)

Module Codes.
Import PyStr Converter Spec PyStrFacts Synthesizer.

(** X15. Two synthesized codes are equal exactly when both targets are
    bet9ja or neither is, and the absolute values of the two hashes agree
    modulo 100000. *)
Theorem booking_code_equal_iff (py_hash : string → Z) (to_plat to_plat' c c' : string) :
  generate_booking_code_for_demo py_hash to_plat c
  = generate_booking_code_for_demo py_hash to_plat' c'
  ↔ Text.eqb to_plat "bet9ja" = Text.eqb to_plat' "bet9ja"
    ∧ (Z.abs (py_hash c) mod 100000 = Z.abs (py_hash c') mod 100000)%Z.
Proof.
  unfold generate_booking_code_for_demo.
  pose proof (format_05d_small (Z.abs (py_hash c) mod 100000)) as (_ & _ & Hv).
  { apply Z.mod_pos_bound. lia. }
  pose proof (format_05d_small (Z.abs (py_hash c') mod 100000)) as (_ & _ & Hv').
  { apply Z.mod_pos_bound. lia. }
  split.
  - destruct (Text.eqb to_plat "bet9ja"), (Text.eqb to_plat' "bet9ja");
      simpl; intros [= Heq]; split; try done; by rewrite <-Hv, <-Hv', Heq.
  - intros [-> ->]. done.
Qed.

End Codes.

(** ** The text path, continued *)

Module TextLegs.
Import PyStr Regex Converter Spec PyStrFacts RegexFacts LegFacts TextPath.

Lemma splitlines_from_all p cur s l :
  all p cur = true → all p s = true →
  l ∈ splitlines_from cur s → all p l = true.
Proof.
  revert cur. induction s as [s IH] using (induction_ltof1 _ Text.length).
  unfold ltof in IH. intros cur Hcur Hs. destruct s as [|c s]; simpl.
  - destruct cur; [by intros ?%elem_of_nil | by intros ->%list_elem_of_singleton].
  - simpl in Hs. apply andb_true_iff in Hs as [Hc Hs].
    destruct (is_linebreak c).
    + intros [->|Hl]%elem_of_cons; [done|].
      destruct s as [|c' s'].
      * by apply elem_of_nil in Hl.
      * destruct (_ && _).
        -- apply (IH s') with (cur := ""); [simpl; lia|done| |done].
           simpl in Hs. by apply andb_true_iff in Hs as [_ ?].
        -- apply (IH (String c' s')) with (cur := ""); [simpl; lia|done|done|done].
    + apply IH; [simpl; lia| |done].
      rewrite all_app, Hcur. simpl. by rewrite Hc.
Qed.

Lemma stripped_lines_all p text line :
  all p text = true → line ∈ stripped_lines text → all p line = true.
Proof.
  intros Hp. unfold stripped_lines.
  intros (l & -> & [_ Hl]%list_elem_of_filter)%list_elem_of_fmap.
  apply all_strip. by apply (splitlines_from_all p "" text).
Qed.

(** The names on both sides of a separator of a trimmed line have a
    character that is no white space. *)
Lemma split_names_nonblank l h a :
  split_at_versus (strip l) h a → strip h ≠ "" ∧ strip a ≠ "".
Proof.
  intros (sep & Hline & Hh & Ha & _). split.
  - intros Hs%strip_empty. destruct h as [|c h]; [done|].
    simpl in Hline. apply strip_head in Hline.
    simpl in Hs. by rewrite Hline in Hs.
  - intros Hs%strip_empty. unfold strip in Hline.
    rewrite <-PyStrFacts.app_assoc in Hline.
    apply rstrip_suffix in Hline; [congruence|done].
Qed.

Lemma length_bind_le {A B} (f : A → list B) (l : list A) :
  (∀ x, length (f x) ≤ 1)%nat → (length (l ≫= f) ≤ length l)%nat.
Proof.
  intros Hf. induction l as [|x l IH]; csimpl; [done|].
  rewrite List.length_app. specialize (Hf x). lia.
Qed.

Lemma bind_no_legs {A B} (f : A → list B) (l : list A) :
  (∀ x, x ∈ l → f x = []) → l ≫= f = [].
Proof.
  induction l as [|x l IH]; csimpl; [done|].
  intros Hf. rewrite (Hf x) by left. apply IH. intros y Hy. apply Hf. by right.
Qed.

Lemma trimmed_self s : trimmed s (strip s) → trimmed (strip s) (strip s).
Proof.
  intros (l & r & _ & _ & _ & Hfirst & Hlast).
  exists "", "". rewrite PyStrFacts.app_nil_r. split_and!; try done; constructor.
Qed.

(** X16. The legs the text extractor returns are at least one and at most
    one per line of the text; each of them has a home and an away name
    that are not empty and have no white space at their ends, the market
    "Unknown", an empty pick and no odds. *)
Theorem text_legs_named (text : string) (legs : list dict) :
  parse_slip_from_text text = Some legs →
  legs ≠ []
  ∧ (∃ raws, lines_of text raws ∧ (length legs ≤ length raws)%nat)
  ∧ Forall (λ leg, ∃ home away,
              home ≠ "" ∧ away ≠ "" ∧ trimmed home home ∧ trimmed away away
              ∧ leg !! "home" = Some (VStr home) ∧ leg !! "away" = Some (VStr away)
              ∧ leg !! "market" = Some (VStr "Unknown") ∧ leg !! "pick" = Some (VStr "")
              ∧ leg !! "odds" = Some VNone ∧ dom leg = leg_fields) legs.
Proof.
  unfold parse_slip_from_text.
  destruct (stripped_lines text ≫= legs_of_line) as [|leg0 legs0] eqn:Hlegs; [done|].
  intros [= <-]. rewrite <-Hlegs. split_and!.
  - by rewrite Hlegs.
  - exists (splitlines text). split; [apply splitlines_lines_of|].
    etrans; [apply length_bind_le|].
    + intros line. unfold legs_of_line. destruct (versus_match line); simpl; lia.
    + unfold stripped_lines. rewrite length_fmap. apply length_filter.
  - apply Forall_forall. intros leg (line & Hleg & Hline)%list_elem_of_bind.
    pose proof (versus_match_spec line (stripped_lines_no_newline _ _ Hline)) as Hm.
    unfold legs_of_line in Hleg. destruct (versus_match line) as [m|].
    + apply list_elem_of_singleton in Hleg as ->.
      unfold stripped_lines in Hline.
      apply list_elem_of_fmap in Hline as (l & -> & _).
      destruct Hm as [Hsplit _]. apply split_names_nonblank in Hsplit as [??].
      exists (strip (group m 1)), (strip (group m 2)).
      unfold make_leg.
      split_and!; [done|done|apply trimmed_self, strip_trimmed
                  |apply trimmed_self, strip_trimmed|..]; try by simplify_map_eq.
      all: unfold leg_fields; rewrite !dom_insert_L, dom_empty_L; set_solver.
    + by apply elem_of_nil in Hleg.
Qed.

Lemma text_legs_named_witness :
  [text_leg "A" "B"] ≠ []
  ∧ ∃ raws, lines_of "A vs B" raws ∧ (length [text_leg "A" "B"] ≤ length raws)%nat.
Proof.
  destruct (text_legs_named "A vs B" [text_leg "A" "B"] eq_refl) as (H1 & H2 & _).
  by split.
Defined.

Lemma versus_word_has_v vw :
  versus_word vw →
  all (λ c, negb ((c =? "v"%char)%N || (c =? "V"%char)%N)) vw = false.
Proof.
  unfold versus_word. intros H.
  repeat (apply elem_of_cons in H as [->|H]; [reflexivity|]).
  by apply elem_of_nil in H.
Qed.

(** X17. A text in which the letter v occurs in neither case holds no
    versus separator, so the extractor returns [None] on it. *)
Theorem text_without_v (text : string) :
  all (λ c, negb ((c =? "v"%char)%N || (c =? "V"%char)%N)) text = true →
  parse_slip_from_text text = None.
Proof.
  intros Hv. unfold parse_slip_from_text.
  assert (stripped_lines text ≫= legs_of_line = []) as ->; [|done].
  apply bind_no_legs. intros line Hline.
  pose proof (versus_match_spec line (stripped_lines_no_newline _ _ Hline)) as Hm.
  apply (stripped_lines_all _ _ _ Hv) in Hline.
  unfold legs_of_line. destruct (versus_match line) as [m|]; [exfalso|done].
  destruct Hm as [(sep & Heq & _ & _ & w1 & vw & w2 & -> & _ & Hvw & _) _].
  rewrite Heq, !all_app, (versus_word_has_v vw Hvw) in Hline.
  by rewrite !andb_false_r, ?andb_false_l in Hline.
Qed.

Lemma text_without_v_witness : parse_slip_from_text "Arsenal - Chelsea" = None.
Proof. apply text_without_v. reflexivity. Defined.

End TextLegs.

(** ** The payload path, continued *)

Module Normalizer.
Import Converter Spec PayloadPath.

Lemma Forall_cons_1_4 {A} (P : A → Prop) (a b c d : A) :
  Forall P [a; b; c; d] → P a ∧ P b ∧ P c ∧ P d ∧ True.
Proof. intros H. by repeat (apply Forall_cons in H as [? H]; split; [done|]). Qed.

Lemma nonempty_list_cases (v : value) :
  (nonempty_list v = false ∧ ∀ items, v = VList items → items = [])
  ∨ ∃ it items, v = VList (it :: items).
Proof.
  destruct v as [| | | | |[|it items]|]; try (left; split; [done|by intros ? [=]]).
  right. by eexists _, _.
Qed.

Lemma scan_keys_cons_skip (d : dict) (key : string) (keys : list string) :
  nonempty_list (get key d) = false →
  scan_keys (key :: keys) d = scan_keys keys d.
Proof. intros H. apply (scan_keys_skip d [key] keys). by constructor. Qed.

Lemma scan_keys_Some (d : dict) (keys : list string) (legs : list dict) :
  scan_keys keys d = Ok (Some legs) →
  ∃ pre key post items,
    keys = pre ++ key :: post
    ∧ Forall (λ k, nonempty_list (get k d) = false) pre
    ∧ get key d = VList items
    ∧ legs_of_items items = Ok legs
    ∧ legs ≠ [].
Proof.
  induction keys as [|key keys IH]; [done|].
  destruct (nonempty_list_cases (get key d)) as [[Hk _]|(it & items & Hk)].
  - rewrite scan_keys_cons_skip by done.
    intros (pre & key' & post & items & -> & Hpre & ?)%IH.
    exists (key :: pre), key', post, items. split; [done|]. split; [by constructor|done].
  - rewrite (scan_keys_hit d key keys _ Hk) by done.
    destruct (legs_of_items (it :: items)) as [legs'|] eqn:Hlegs; simpl; [|done].
    intros [= <-]. exists [], key, keys, (it :: items). split_and!; try done.
    apply legs_of_items_Ok in Hlegs. intros ->. inversion Hlegs.
Qed.

Lemma scan_keys_none_iff (d : dict) (keys : list string) :
  scan_keys keys d = Ok None ↔ Forall (λ k, nonempty_list (get k d) = false) keys.
Proof.
  split; [|apply scan_keys_none].
  induction keys as [|key keys IH]; [done|].
  destruct (nonempty_list_cases (get key d)) as [[Hk _]|(it & items & Hk)].
  - rewrite scan_keys_cons_skip by done. intros ?%IH. by constructor.
  - rewrite (scan_keys_hit d key keys _ Hk) by done.
    by destruct (legs_of_items (it :: items)).
Qed.

Lemma scan_keys_Raise (d : dict) (keys : list string) (e : exn) :
  scan_keys keys d = Raise e →
  e = AttributeError
  ∧ ∃ key items, key ∈ keys ∧ get key d = VList items
      ∧ Exists (λ it, is_dict it = false) items.
Proof.
  induction keys as [|key keys IH]; [done|].
  destruct (nonempty_list_cases (get key d)) as [[Hk _]|(it & items & Hk)].
  - rewrite scan_keys_cons_skip by done.
    intros (-> & key' & items & ? & ?)%IH. split; [done|].
    exists key', items. split; [by right|done].
  - rewrite (scan_keys_hit d key keys _ Hk) by done.
    destruct (legs_of_items (it :: items)) as [legs'|e'] eqn:Hlegs; simpl; [done|].
    intros [= <-]. apply legs_of_items_Raise in Hlegs as [-> ?]. split; [done|].
    exists key, (it :: items). split; [by left|done].
Qed.

(** X18. The legs the normalizer returns come from the first candidate key,
    in the order booking, slip, bets, items, data, that holds a list with
    at least one item; the keys before it hold no such list. There is one
    leg per item, in the order of the items, each built from its item. *)
Theorem normalizer_first_list (payload : value) (legs : list dict) :
  parse_slip_from_payload payload = Ok (Some legs) →
  ∃ d pre key post items,
    payload = VDict d
    ∧ candidate_keys = pre ++ key :: post
    ∧ Forall (λ k, nonempty_list (get k d) = false) pre
    ∧ get key d = VList items
    ∧ Forall2 (λ it leg, leg_of_item it = Ok leg) items legs
    ∧ legs ≠ [].
Proof.
  destruct payload as [| | | | | |d]; try done. unfold parse_slip_from_payload.
  intros (pre & key & post & items & ? & ? & ? & ?%legs_of_items_Ok & ?)%scan_keys_Some.
  by exists d, pre, key, post, items.
Qed.

Lemma normalizer_first_list_witness :
  ∃ d pre key post items,
    bets_payload = VDict d
    ∧ candidate_keys = pre ++ key :: post
    ∧ get key d = VList items.
Proof.
  destruct (normalizer_first_list bets_payload _ eq_refl)
    as (d & pre & key & post & items & ? & ? & _ & ? & _).
  by exists d, pre, key, post, items.
Defined.

(** X19. On an object the normalizer reports "not found" exactly when no
    candidate key holds a list with at least one item; such a list either
    gives legs or makes the normalizer raise. *)
Theorem normalizer_none_iff (d : dict) :
  parse_slip_from_payload (VDict d) = Ok None
  ↔ ∀ key, key ∈ candidate_keys → nonempty_list (get key d) = false.
Proof. unfold parse_slip_from_payload. rewrite scan_keys_none_iff. apply Forall_forall. Qed.

(** X20. The normalizer raises nothing but [AttributeError], and only when
    the payload is no object or a list under a candidate key holds an item
    that is no object. *)
Theorem normalizer_raises (payload : value) (e : exn) :
  parse_slip_from_payload payload = Raise e →
  e = AttributeError
  ∧ (is_dict payload = false
     ∨ ∃ d key items, payload = VDict d ∧ key ∈ candidate_keys
         ∧ get key d = VList items ∧ Exists (λ it, is_dict it = false) items).
Proof.
  destruct payload as [| | | | | |d]; unfold parse_slip_from_payload;
    try (intros [= <-]; split; [done|by left]).
  intros (-> & key & items & ? & ? & ?)%scan_keys_Raise. split; [done|].
  right. by exists d, key, items.
Qed.

Lemma normalizer_raises_witness :
  ∃ e, parse_slip_from_payload number_item_payload = Raise e ∧ e = AttributeError.
Proof.
  exists AttributeError. split; [reflexivity|].
  by destruct (normalizer_raises number_item_payload AttributeError eq_refl).
Defined.

Lemma first_truthy_default (vs : list value) (dflt : value) :
  truthy (first_truthy vs dflt) = false → first_truthy vs dflt = dflt.
Proof.
  induction vs as [|v vs IH]; simpl; [done|].
  destruct (truthy v) eqn:Hv; [congruence|done].
Qed.

Lemma dom_make_leg home away market pick odds :
  dom (make_leg home away market pick odds) = leg_fields.
Proof.
  unfold make_leg, leg_fields. rewrite !dom_insert_L, dom_empty_L. set_solver.
Qed.

Lemma get_make_leg home away market pick odds :
  get "home" (make_leg home away market pick odds) = home
  ∧ get "away" (make_leg home away market pick odds) = away
  ∧ get "market" (make_leg home away market pick odds) = market
  ∧ get "pick" (make_leg home away market pick odds) = pick
  ∧ get "odds" (make_leg home away market pick odds) = odds.
Proof. unfold get, make_leg. split_and!; by simplify_map_eq. Qed.

Lemma make_leg_schema home away market pick odds :
  Forall (λ v, truthy v = false → v = VStr "") [home; away; market; pick] →
  dom (make_leg home away market pick (coerce_odds odds)) = leg_fields
  ∧ is_odds (get "odds" (make_leg home away market pick (coerce_odds odds)))
  ∧ ∀ k, k ∈ ["home"; "away"; "market"; "pick"] →
      truthy (get k (make_leg home away market pick (coerce_odds odds))) = false →
      get k (make_leg home away market pick (coerce_odds odds)) = VStr "".
Proof.
  intros (Hhome & Haway & Hmarket & Hpick & _)%Forall_cons_1_4.
  destruct (get_make_leg home away market pick (coerce_odds odds))
    as (Hh & Ha & Hm & Hp & Ho).
  split_and!.
  - apply dom_make_leg.
  - rewrite Ho.
    destruct (coerce_odds_cases odds) as [->|(f & _ & ->)]; [by left|right; by exists f].
  - intros k Hk.
    repeat (apply elem_of_cons in Hk as [->|Hk]; [|]);
      [by rewrite Hh|by rewrite Ha|by rewrite Hm|by rewrite Hp|by apply elem_of_nil in Hk].
Qed.

(** X21. Whatever an item holds, its leg has exactly the five fields home,
    away, market, pick and odds; the odds are absent or a float, and each
    of the other four fields is the empty string unless it is truthy. *)
Theorem leg_of_item_schema (it : value) (leg : dict) :
  leg_of_item it = Ok leg →
  dom leg = leg_fields
  ∧ is_odds (get "odds" leg)
  ∧ ∀ k, k ∈ ["home"; "away"; "market"; "pick"] →
      truthy (get k leg) = false → get k leg = VStr "".
Proof.
  destruct it as [| | | | | |d]; try done.
  rewrite leg_of_item_aliases. intros Hleg.
  apply (f_equal (λ r, match r with Ok x => x | Raise _ => leg end)) in Hleg.
  rewrite <-Hleg. apply make_leg_schema.
  repeat (constructor; [apply first_truthy_default|]). constructor.
Qed.

Lemma leg_of_item_schema_witness :
  dom (make_leg (VStr "") (VStr "") (VStr "") (VStr "") VNone) = leg_fields
  ∧ is_odds (get "odds" (make_leg (VStr "") (VStr "") (VStr "") (VStr "") VNone))
  ∧ ∀ k, k ∈ ["home"; "away"; "market"; "pick"] →
      truthy (get k (make_leg (VStr "") (VStr "") (VStr "") (VStr "") VNone)) = false →
      get k (make_leg (VStr "") (VStr "") (VStr "") (VStr "") VNone) = VStr "".
Proof. apply (leg_of_item_schema (VDict ∅)). reflexivity. Defined.

End Normalizer.

(** ** The locator of the embedded payload *)

Module Locator.
Import PyStr Regex Converter Spec PyStrFacts RegexFacts.

Lemma class_lit_S l ch : class_match flags_S (CLit l) ch = true → ch = l.
Proof. simpl. apply N.eqb_eq. Qed.

(** A literal word in front of a pattern takes no part in the captures. *)
Lemma matches_lit fl pfx k caps w caps' :
  matches fl (lit pfx k) caps w caps' →
  ∃ w0 w', w = w0 +:+ w' ∧ matches fl k caps w' caps'.
Proof.
  revert w. induction pfx as [|c pfx IH]; intros w; cbn [lit matches].
  - intros H. by exists "", w.
  - intros (w1 & w2 & caps1 & -> & (ch & -> & _ & ->) & (w0 & w' & -> & H)%IH).
    by exists (String ch w0), w'.
Qed.

Lemma matches_assigned caps w caps' :
  matches flags_S assigned_object caps w caps' →
  ∃ w1 g w2, w = w1 +:+ g +:+ w2 ∧ braced g ∧ caps' = (1, g) :: caps.
Proof.
  unfold assigned_object. cbn [matches].
  intros (wa & wb & c1 & -> & (_ & ->) & wc & wd & c2 & -> & (ch1 & -> & _ & ->)
          & we & wf & c3 & -> & (_ & ->) & wg & wh & c4 & -> & Hg & (ch2 & -> & _ & ->)).
  destruct Hg as (c5 & (wi & wj & c6 & -> & (ch3 & -> & ->%class_lit_S & ->)
                        & wk & wl & c7 & -> & (_ & ->) & (ch4 & -> & ->%class_lit_S & ->))
                  & ->).
  exists (wa +:+ String ch1 "" +:+ we), ("{" +:+ wk +:+ "}"), (String ch2 "").
  split; [by rewrite !app_assoc|]. split; [by exists wk|done].
Qed.

Lemma matches_keyed key caps w caps' :
  matches flags_S (keyed_object key) caps w caps' →
  braced w ∧ caps' = (1, w) :: caps.
Proof.
  unfold keyed_object. cbn [matches].
  intros (c1 & (w1 & w2 & c2 & -> & (ch1 & -> & ->%class_lit_S & ->)
                & w3 & w4 & c3 & -> & (ch2 & -> & _ & ->) & Hlit) & ->).
  apply matches_lit in Hlit as (w0 & w' & -> & Hk). cbn [matches] in Hk.
  destruct Hk as (w5 & w6 & c4 & -> & (ch3 & -> & _ & ->)
                  & w7 & w8 & c5 & -> & (_ & ->) & (ch4 & -> & ->%class_lit_S & ->)).
  split; [|done].
  exists (String ch2 "" +:+ w0 +:+ String ch3 "" +:+ w7). by rewrite !app_assoc.
Qed.

(** Whatever a pattern of the locator matches, its group is a part of the
    match that opens and ends with a brace. *)
Lemma patterns_capture pat w caps :
  pat ∈ patterns → matches flags_S pat [] w caps →
  ∃ w1 g w2, w = w1 +:+ g +:+ w2 ∧ braced g ∧ group caps 1 = g.
Proof.
  unfold patterns. intros Hpat.
  repeat (apply elem_of_cons in Hpat as [->|Hpat]; [|]);
    [| | | | |by apply elem_of_nil in Hpat].
  - intros (w0 & w' & -> & (w1 & g & w2 & -> & Hg & ->)%matches_assigned)%matches_lit.
    exists (w0 +:+ w1), g, w2. by rewrite app_assoc.
  - intros (w0 & w' & -> & (w1 & g & w2 & -> & Hg & ->)%matches_assigned)%matches_lit.
    exists (w0 +:+ w1), g, w2. by rewrite app_assoc.
  - intros (w0 & w' & -> & H)%matches_lit. cbn [matches] in H.
    destruct H as (wa & wb & c1 & -> & (_ & _ & ->)
                   & (w3 & w4 & -> & (w1 & g & w2 & -> & Hg & ->)%matches_assigned)%matches_lit).
    exists (w0 +:+ wa +:+ w3 +:+ w1), g, w2. by rewrite !app_assoc.
  - intros [Hg ->]%matches_keyed. exists "", w, "". by rewrite app_nil_r.
  - intros [Hg ->]%matches_keyed. exists "", w, "". by rewrite app_nil_r.
Qed.

Section WithJson.
Variable json_loads : string → result value.

Lemma extract_with_Some pats html v :
  extract_with json_loads pats html = Some v →
  ∃ pat m, pat ∈ pats ∧ search flags_S pat html = Some m
           ∧ json_loads (group m 1) = Ok v.
Proof.
  induction pats as [|pat pats IH]; simpl; [done|].
  destruct (search flags_S pat html) as [m|] eqn:Hs.
  - unfold reparse. destruct (json_loads (group m 1)) as [v'|] eqn:Hv.
    + intros [= <-]. exists pat, m. split; [by left|done].
    + intros (pat' & m' & ? & ?)%IH. exists pat', m'. split; [by right|done].
  - intros (pat' & m' & ? & ?)%IH. exists pat', m'. split; [by right|done].
Qed.

(** X22. What the locator returns is what [json.loads] made of a part of
    the page that opens with a left brace and ends with a right brace; it
    never invents a payload, whatever [json.loads] is. *)
Theorem locator_returns_parsed_object (html : string) (v : value) :
  extract_json_payload_from_html json_loads html = Some v →
  ∃ pre txt post, html = pre +:+ txt +:+ post ∧ braced txt ∧ json_loads txt = Ok v.
Proof.
  unfold extract_json_payload_from_html.
  intros (pat & m & Hpat & Hs & Hv)%extract_with_Some.
  apply search_some in Hs as (pre & t & rest & -> & Hhd).
  assert ((m, rest) ∈ run flags_S pat [] t) as Hin.
  { destruct (run flags_S pat [] t); simplify_eq/=. left. }
  apply run_spec in Hin as (w & -> & Hm).
  apply (patterns_capture pat w m Hpat) in Hm as (w1 & g & w2 & -> & Hg & Hgroup).
  rewrite Hgroup in Hv.
  exists (pre +:+ w1), g, (w2 +:+ rest). by rewrite !app_assoc.
Qed.

End WithJson.

Lemma locator_returns_parsed_object_witness :
  ∃ pre txt post,
    object_market_page = pre +:+ txt +:+ post ∧ braced txt
    ∧ loads_object_market txt = Ok object_market_payload.
Proof.
  apply (locator_returns_parsed_object loads_object_market object_market_page).
  reflexivity.
Defined.

End Locator.

(** ** The connection registry *)

Module Registry.
Import Converter.

Lemma list_remove_in (ws : websocket) (l : list websocket) :
  ws ∈ l →
  ∃ l1 l2, l = l1 ++ ws :: l2 ∧ (ws ∉ l1) ∧ list_remove ws l = Ok (l1 ++ l2).
Proof.
  induction l as [|y l IH]; [by intros ?%elem_of_nil|]. simpl.
  destruct (decide (y = ws)) as [->|Hy].
  - intros _. exists [], l. split_and!; [done|apply not_elem_of_nil|done].
  - intros [?|Hin]%elem_of_cons; [congruence|].
    destruct (IH Hin) as (l1 & l2 & -> & Hl1 & ->).
    exists (y :: l1), l2. split_and!; [done| |done].
    intros [?|?]%elem_of_cons; [congruence|done].
Qed.

Lemma filter_all {A} (P : A → Prop) `{∀ x, Decision (P x)} (l : list A) :
  (∀ x, x ∈ l → P x) → filter P l = l.
Proof.
  induction l as [|x l IH]; [done|]. intros Hl.
  rewrite filter_cons_True by (apply Hl; left).
  f_equal. apply IH. intros y Hy. apply Hl. by right.
Qed.

Lemma filter_ext_elem {A} (P Q : A → Prop) `{∀ x, Decision (P x)} `{∀ x, Decision (Q x)}
    (l : list A) :
  (∀ x, x ∈ l → P x ↔ Q x) → filter P l = filter Q l.
Proof.
  induction l as [|x l IH]; [done|]. intros Hl.
  assert (filter P l = filter Q l) as Hrec.
  { apply IH. intros y Hy. apply Hl. by right. }
  destruct (decide (P x)) as [HP|HP].
  - rewrite !filter_cons_True; [by f_equal|by apply Hl; [left|]|done].
  - rewrite !filter_cons_False; [done| |done].
    intros HQ. apply HP, Hl; [left|done].
Qed.

(** In a registry without duplicates [disconnect] leaves the connections
    other than the one it is given. *)
Lemma disconnect_filter (c : websocket) (l : list websocket) :
  NoDup l → disconnect c l = Ok (filter (λ x, x ≠ c) l).
Proof.
  intros Hnd. unfold disconnect. destruct (bool_decide_reflect (c ∈ l)) as [Hin|Hin].
  - destruct (list_remove_in c l Hin) as (l1 & l2 & -> & Hl1 & ->).
    apply NoDup_app in Hnd as (_ & Hdisj & [Hl2 _]%NoDup_cons).
    rewrite filter_app, filter_cons_False by (intros ?; done).
    rewrite !filter_all; [done|intros x Hx ->; done|intros x Hx ->; done].
  - rewrite filter_all; [done|]. intros x Hx ->. done.
Qed.

Lemma disconnect_all_filter (r l : list websocket) :
  NoDup l → disconnect_all r l = Ok (filter (λ x, x ∉ r) l).
Proof.
  revert l. induction r as [|c r IH]; intros l Hnd; simpl.
  - rewrite filter_all; [done|]. intros x _. apply not_elem_of_nil.
  - rewrite disconnect_filter by done. simpl.
    rewrite IH by by apply NoDup_filter.
    rewrite list_filter_filter. f_equal. apply list_filter_iff.
    intros x. rewrite not_elem_of_cons. tauto.
Qed.

Lemma disconnect_Ok (c : websocket) (l : list websocket) : ∃ l', disconnect c l = Ok l'.
Proof.
  unfold disconnect. destruct (bool_decide_reflect (c ∈ l)) as [Hin|Hin]; [|by eexists].
  destruct (list_remove_in c l Hin) as (l1 & l2 & _ & _ & ->). by eexists.
Qed.

Lemma disconnect_all_Ok (r l : list websocket) : ∃ l', disconnect_all r l = Ok l'.
Proof.
  revert l. induction r as [|c r IH]; intros l; simpl; [by eexists|].
  destruct (disconnect_Ok c l) as [l' ->]. simpl. apply IH.
Qed.

Lemma send_all_parts send i conns :
  (send_all send i conns).1 ++ (send_all send i conns).2 ≡ₚ conns
  ∧ (NoDup conns →
     (send_all send i conns).2 = filter (λ x, x ∉ (send_all send i conns).1) conns).
Proof.
  revert i. induction conns as [|c conns IH]; intros i; simpl.
  - split; [done|]. done.
  - destruct (IH (S i)) as [Hperm Hsent].
    destruct (send_all send (S i) conns) as [r s]. simpl in *.
    destruct (send i c); simpl.
    + split; [by rewrite <-Permutation_middle, Hperm|].
      intros [Hc Hnd]%NoDup_cons.
      assert (c ∉ r) as Hcr.
      { intros Hin. apply Hc. rewrite <-Hperm. apply elem_of_app. by left. }
      rewrite filter_cons_True by done. f_equal. by apply Hsent.
    + split; [by rewrite Hperm|].
      intros [Hc Hnd]%NoDup_cons.
      rewrite filter_cons_False by (intros Hn; apply Hn; left).
      rewrite (Hsent Hnd). apply filter_ext_elem.
      intros x Hx. rewrite not_elem_of_cons. split; [|tauto].
      intros ?. split; [by intros ->|done].
Qed.

(** X23. [disconnect] never raises: a connection that is not registered
    leaves the registry as it is, and of a registered one exactly its first
    registration goes, the connections around it keeping their order. *)
Theorem disconnect_first_registration (ws : websocket) (active : list websocket) :
  ∃ l, disconnect ws active = Ok l
    ∧ (ws ∉ active → l = active)
    ∧ (ws ∈ active →
        ∃ l1 l2, active = l1 ++ ws :: l2 ∧ (ws ∉ l1) ∧ l = l1 ++ l2).
Proof.
  unfold disconnect. destruct (bool_decide_reflect (ws ∈ active)) as [Hin|Hin].
  - destruct (list_remove_in ws active Hin) as (l1 & l2 & -> & Hl1 & ->).
    eexists. split_and!; [done|done|]. intros _. by exists l1, l2.
  - by exists active.
Qed.

(** X24. Registering a connection that was not registered and
    disconnecting it again gives back the registry as it was. *)
Theorem connect_then_disconnect (ws : websocket) (active : list websocket) :
  ws ∉ active →
  rbind (connect (Ok tt) ws active) (disconnect ws) = Ok active.
Proof.
  intros Hws. unfold connect. simpl. unfold disconnect.
  rewrite bool_decide_eq_true_2 by (apply elem_of_app; right; left).
  induction active as [|y active IH]; simpl.
  - by rewrite decide_True.
  - apply not_elem_of_cons in Hws as [Hy Hws].
    rewrite decide_False by done. by rewrite (IH Hws).
Qed.

Lemma connect_then_disconnect_witness :
  rbind (connect (Ok tt) 3 [1; 2]) (disconnect 3) = Ok [1; 2].
Proof.
  apply (connect_then_disconnect 3 [1; 2]).
  intros H. repeat (apply elem_of_cons in H as [H|H]; [lia|]). by apply elem_of_nil in H.
Defined.

(** X25. [broadcast] never raises and sends to every registered connection
    once, whatever sends fail before it; in a registry without duplicates
    the connections left afterwards are exactly those that took the
    message, in their order. *)
Theorem broadcast_keeps_receivers (send : nat → websocket → result unit)
    (active : list websocket) :
  ∃ l, (broadcast send active).1 = Ok l
    ∧ (send_all send 0 active).1 ++ (broadcast send active).2 ≡ₚ active
    ∧ (NoDup active → l = (broadcast send active).2).
Proof.
  unfold broadcast. destruct (send_all_parts send 0 active) as [Hperm Hsent].
  destruct (send_all send 0 active) as [r s]. simpl in *.
  destruct (disconnect_all_Ok r active) as [l Hl]. exists l. split_and!; try done.
  intros Hnd. rewrite disconnect_all_filter in Hl by done.
  rewrite (Hsent Hnd). congruence.
Qed.

End Registry.

(** ** The slip resolver, by way of the embedded payload *)

Module PayloadRoute.
Import Converter Spec Endpoint Resolver Normalizer.

Lemma found_legs_truthy (payload : value) (found : list dict) :
  parse_slip_from_payload payload = Ok (Some found) →
  truthy payload = true ∧ truthy_legs (Some found) = true.
Proof.
  destruct payload as [| | | | | |d]; try done. unfold parse_slip_from_payload.
  intros (pre & key & post & items & _ & _ & Hget & _ & Hne)%scan_keys_Some. split.
  - simpl. destruct (bool_decide_reflect (d = ∅)) as [->|]; [|done].
    unfold get in Hget. by rewrite lookup_empty in Hget.
  - by destruct found.
Qed.

(** X26. When the first URL loads, none of its containers is there and the
    normalizer finds legs in the payload embedded in its markup, these legs
    are returned after the browser is closed; no other URL is visited. *)
Theorem resolver_payload_found (json_loads : string → result value) (w : tool)
    (code : string) (timeout : Z) (html : string) (payload : value) (found : list dict) :
  opens w timeout →
  w unit 4 (Goto ("https://www.sportybet.com/ng/m/sporty/booking?bookingCode=" +:+ code))
    = Ok tt →
  (∀ n sel, w bool n (QuerySelector sel) = Ok false) →
  w string 10 Content = Ok html →
  extract_json_payload_from_html json_loads html = Some payload →
  parse_slip_from_payload payload = Ok (Some found) →
  w unit 11 Close = Ok tt →
  w unit 12 Stop = Ok tt →
  exec w (fetch_sportybet_slip_playwright json_loads code timeout)
  = (Some (Slip found),
     opening timeout ++
     [Event (Goto ("https://www.sportybet.com/ng/m/sporty/booking?bookingCode=" +:+ code))]
     ++ ((λ sel, Event (QuerySelector sel)) <$> selectors_to_try)
     ++ [Event Content; Event Close; Event Stop]).
Proof.
  intros (H0 & H1 & H2 & H3) H4 Hsel Hc Hex Hparse Hclose Hstop.
  destruct (found_legs_truthy payload found Hparse) as [Htr Hlegs].
  unfold exec, fetch_sportybet_slip_playwright, urls.
  cbn [exec_from]. rewrite H0, exec_from_bind, !exec_from_call, H1, H2, H3.
  cbn [try_urls exec_from]. rewrite H4, exec_from_bind.
  rewrite (try_selectors_absent w 5 selectors_to_try Hsel).
  rewrite exec_from_bind. unfold try_payload. rewrite exec_from_call.
  change (w string _ Content) with (w string 10 Content).
  rewrite Hc. cbn beta iota zeta. rewrite Hex, Htr, Hparse, Hlegs, exec_from_call.
  change (w unit _ Close) with (w unit 11 Close). rewrite Hclose.
  cbn [exec_from length Nat.add app fmap list_fmap selectors_to_try].
  change (w unit _ Stop) with (w unit 12 Stop). by rewrite Hstop.
Qed.

Lemma resolver_payload_found_witness :
  (exec object_market_tool
     (fetch_sportybet_slip_playwright loads_object_market "ABC" 25)).1
  = Some (Slip [make_leg (VStr "A") (VStr "B") (VDict {[ "id" := VInt 1 ]})
                  (VStr "") VNone]).
Proof.
  rewrite (resolver_payload_found loads_object_market object_market_tool "ABC" 25
             object_market_page object_market_payload
             [make_leg (VStr "A") (VStr "B") (VDict {[ "id" := VInt 1 ]}) (VStr "") VNone]);
    [done|..]; try reflexivity.
  repeat split.
Defined.

End PayloadRoute.
